(** * Importance-matrix collector: examples/imatrix/imatrix.cpp

    A shallow embedding of [IMatrixCollector] (accumulation, binary
    snapshot encoding and decoding, layer-importance scoring) and of the
    log-softmax kernel, with the properties of the specification proved
    or refuted on it.

    Modelling conventions.
    - [int] is a mathematical integer kept inside the 32-bit signed range;
      signed overflow is undefined behaviour in C++ and is reported as
      [Undefined] by the operations that can overflow.
    - [float] is a 32-bit IEEE-754 pattern (a [Z] below [2^32]); arithmetic
      decodes the operands, applies the binary32 operation of
      [SpecFloat] (round to nearest even, no contraction of [a*b+c]) and
      encodes the result.  [double] intermediates are [spec_float] values
      of the binary64 format.
    - [std::unordered_map] is a [gmap]; its iteration order is the
      canonical order of [map_to_list], a function of the key set alone.
    - A file is the list of its bytes. *)

From Stdlib Require Import ZArith List Lia Bool.
From Stdlib Require Import Floats.SpecFloat.
From Stdlib Require Import Strings.Byte Strings.String Strings.Ascii.
From stdpp Require Import gmap strings list fin_maps pretty sorting.

Local Open Scope Z_scope.

(** ** Machine integers *)

Module Int32.

Definition min_signed : Z := - 2 ^ 31.
Definition max_signed : Z := 2 ^ 31 - 1.

Definition in_range (z : Z) : Prop := min_signed <= z <= max_signed.

Definition in_rangeb (z : Z) : bool := (min_signed <=? z) && (z <=? max_signed).

(** Reinterpretation of the low 32 bits as a signed value. *)
Definition wrap (z : Z) : Z := (z + 2 ^ 31) mod 2 ^ 32 - 2 ^ 31.

(** [a + b] on [int]: [None] stands for the undefined signed overflow. *)
Definition add (a b : Z) : option Z :=
  if in_rangeb (a + b) then Some (a + b) else None.

End Int32.

(** [size_t] arithmetic is modulo [2^64]. *)
Module SizeT.

Definition modulus : Z := 2 ^ 64.
Definition npos : Z := 2 ^ 64 - 1.
Definition wrap (z : Z) : Z := z mod modulus.

End SizeT.

(** ** Bytes and little-endian fields *)

Definition byte_of_Z (z : Z) : byte :=
  match Byte.of_N (Z.to_N (z mod 256)) with
  | Some b => b
  | None => x00
  end.

Definition Z_of_byte (b : byte) : Z := Z.of_N (Byte.to_N b).

Fixpoint le_bytes (n : nat) (z : Z) : list byte :=
  match n with
  | O => []
  | S n' => byte_of_Z z :: le_bytes n' (z / 256)
  end.

Fixpoint le_value (bs : list byte) : Z :=
  match bs with
  | [] => 0
  | b :: bs' => Z_of_byte b + 256 * le_value bs'
  end.

(** [out.write] of an [int]: four bytes, least significant first *)
Definition write_i32 (z : Z) : list byte := le_bytes 4 z.

(** the [int] held by the four bytes delivered by [in.read] *)
Definition read_i32 (bs : list byte) : Z := Int32.wrap (le_value bs).

(** a [float] in memory: its 32-bit pattern *)
Definition write_f32 (bits : Z) : list byte := le_bytes 4 bits.
Definition read_f32 (bs : list byte) : Z := le_value bs.

(** ** IEEE-754 binary32 and binary64 *)

Module F32.

Definition prec : Z := 24.
Definition emax : Z := 128.


(** Decoding of a bit pattern: sign (1 bit), biased exponent (8 bits),
    fraction (23 bits). *)
Definition of_bits (b : Z) : spec_float :=
  let b := b mod 2 ^ 32 in
  let s := 2 ^ 31 <=? b in
  let e := (b / 2 ^ 23) mod 2 ^ 8 in
  let m := b mod 2 ^ 23 in
  if e =? 0 then
    if m =? 0 then S754_zero s else S754_finite s (Z.to_pos m) (-149)
  else if e =? 255 then
    if m =? 0 then S754_infinity s else S754_nan
  else S754_finite s (Z.to_pos (m + 2 ^ 23)) (e - 150).

Definition sign_bit (s : bool) : Z := if s then 2 ^ 31 else 0.

(** Encoding.  [SpecFloat] keeps no NaN payload: every NaN is encoded as
    the quiet NaN [0x7FC00000]. *)
Definition to_bits (x : spec_float) : Z :=
  match x with
  | S754_zero s => sign_bit s
  | S754_infinity s => sign_bit s + 255 * 2 ^ 23
  | S754_nan => 255 * 2 ^ 23 + 2 ^ 22
  | S754_finite s m e =>
      sign_bit s +
      (if Zpos m <? 2 ^ 23 then Zpos m
       else (e + 150) * 2 ^ 23 + (Zpos m - 2 ^ 23)) mod 2 ^ 31
  end.

Definition add : spec_float -> spec_float -> spec_float := SFadd prec emax.
Definition sub : spec_float -> spec_float -> spec_float := SFsub prec emax.
Definition mul : spec_float -> spec_float -> spec_float := SFmul prec emax.
Definition div : spec_float -> spec_float -> spec_float := SFdiv prec emax.
Definition sqrt : spec_float -> spec_float := SFsqrt prec emax.
Definition opp : spec_float -> spec_float := SFopp.
Definition eqb : spec_float -> spec_float -> bool := SFeqb.
Definition ltb : spec_float -> spec_float -> bool := SFltb.

(** [static_cast<float>(n)] for an integer [n] *)
Definition of_int (n : Z) : spec_float := binary_normalize prec emax n 0 false.

Definition zero : spec_float := S754_zero false.
Definition one : spec_float := Eval cbv in of_int 1.

(** [std::isfinite] *)
Definition is_finite (x : spec_float) : bool :=
  match x with
  | S754_zero _ | S754_finite _ _ _ => true
  | S754_infinity _ | S754_nan => false
  end.

(** [std::max(a, b)]: [(a < b) ? b : a] *)
Definition max (a b : spec_float) : spec_float := if ltb a b then b else a.

Definition bits_zero : Z := 0.
Definition bits_one : Z := Eval cbv in to_bits one.

End F32.

Module F64.

Definition prec : Z := 53.
Definition emax : Z := 1024.

Definition add : spec_float -> spec_float -> spec_float := SFadd prec emax.
Definition sub : spec_float -> spec_float -> spec_float := SFsub prec emax.
Definition mul : spec_float -> spec_float -> spec_float := SFmul prec emax.
Definition div : spec_float -> spec_float -> spec_float := SFdiv prec emax.
Definition ltb : spec_float -> spec_float -> bool := SFltb.

(** conversion of an [int] or a [size_t] to [double] *)
Definition of_int (n : Z) : spec_float := binary_normalize prec emax n 0 false.



(** [round(x)]: nearest integer, halfway cases away from zero *)
Definition round (x : spec_float) : spec_float :=
  match x with
  | S754_finite s m e =>
      if 0 <=? e then x
      else
        let d := 2 ^ (- e) in
        let q := Zpos m / d in
        let r := Zpos m mod d in
        let n := if d <=? 2 * r then q + 1 else q in
        binary_normalize prec emax (if s then - n else n) 0 s
  | _ => x
  end.

(** the literal [0.05]: [0x3FA999999999999A] *)
Definition c0_05 : spec_float := S754_finite false 7205759403792794 (-57).

End F64.

(** ** Data model *)

(** [struct Stats] *)
Record Stats := mkStats {
  activations : list Z;   (* std::vector<float>: bit patterns *)
  values : list Z;        (* std::vector<float>: bit patterns *)
  counts : list Z;        (* std::vector<int> *)
  ncall : Z;
  n_as : Z
}.

(** a default-constructed [Stats] *)
Definition Stats_default : Stats := mkStats [] [] [] 0 1.

(** the fields of [gpt_params] read by the collector *)
Record gpt_params := mkParams {
  out_file : string;
  prompt_file : string;
  n_out_freq : Z;
  n_save_freq : Z;
  verbosity : Z;
  process_output : bool;
  output_tensor_name : string
}.

(** [class IMatrixCollector]; the mutex and the two staging buffers
    [m_src1_data] and [m_ids] carry no state between calls. *)
Record IMatrixCollector := mkCollector {
  m_stats : gmap string Stats;
  m_params : gpt_params;
  m_last_call : Z
}.

Definition set_stats (m : gmap string Stats) (c : IMatrixCollector) : IMatrixCollector :=
  mkCollector m (m_params c) (m_last_call c).

Definition set_last_call (n : Z) (c : IMatrixCollector) : IMatrixCollector :=
  mkCollector (m_stats c) (m_params c) n.

(** the collector together with the files it has written so far *)
Record World := mkWorld {
  collector : IMatrixCollector;
  written : list (string * list byte)
}.

(** ** Control effects

    A call either returns, leaves through [exit(status)], is terminated
    (a failed [GGML_ASSERT], an uncaught exception) or has undefined
    behaviour.  The first three carry the state at that moment. *)

Inductive outcome (S A : Type) : Type :=
| Returns (a : A) (s : S)
| Exits (status : Z) (s : S)
| Aborts (s : S)
| Undefined.

Arguments Returns {S A} a s.
Arguments Exits {S A} status s.
Arguments Aborts {S A} s.
Arguments Undefined {S A}.

Definition M (S A : Type) : Type := S -> outcome S A.

Definition ret {S A} (a : A) : M S A := fun s => Returns a s.

Definition bind {S A B} (m : M S A) (k : A -> M S B) : M S B :=
  fun s =>
    match m s with
    | Returns a s' => k a s'
    | Exits n s' => Exits n s'
    | Aborts s' => Aborts s'
    | Undefined => Undefined
    end.

Definition get {S} : M S S := fun s => Returns s s.
Definition put {S} (s : S) : M S unit := fun _ => Returns tt s.
Definition modify {S} (f : S -> S) : M S unit := fun s => Returns tt (f s).
Definition exit_ {S A} (status : Z) : M S A := fun s => Exits status s.
Definition abort {S A} : M S A := fun s => Aborts s.
Definition undefined {S A} : M S A := fun _ => Undefined.

Notation "'do' x <- m ; k" := (bind m (fun x => k))
  (at level 10, x name, m at level 100, k at level 200).
Notation "m ;; k" := (bind m (fun _ => k))
  (at level 100, k at level 200, right associativity).

(** [for (x : l) body] *)
Fixpoint for_each {S A} (l : list A) (body : A -> M S unit) : M S unit :=
  match l with
  | [] => ret tt
  | x :: l' => body x ;; for_each l' body
  end.

(** ** NameFilter *)

(** the suffix of [s] that starts at the first occurrence of [c] ([strchr]) *)
Fixpoint strchr (c : ascii) (s : string) : option string :=
  match s with
  | EmptyString => None
  | String a s' => if Ascii.eqb a c then Some s else strchr c s'
  end.

(** the prefix of [s] before the first occurrence of [c] *)
Fixpoint before (c : ascii) (s : string) : string :=
  match s with
  | EmptyString => EmptyString
  | String a s' => if Ascii.eqb a c then EmptyString else String a (before c s')
  end.

Definition filter_tensor_name (name : string) : string :=
  match strchr "#" name with
  | Some (String _ p) =>
      match strchr "#" p with
      | Some _ => before "#" p
      | None => p
      end
  | _ => name
  end.

(** ** SerializationCodec: save_imatrix *)

(** the loop counting [c == 0] *)
Definition count_zeros (cs : list Z) : Z :=
  fold_left (fun n c => if c =? 0 then n + 1 else n) cs 0.

(** the [n_per] elements at [data() + i * n_per] *)
Definition block {A} (l : list A) (i n_per : Z) : list A :=
  take (Z.to_nat n_per) (drop (Z.to_nat (i * n_per)) l).

Definition bad_experts (cs : list Z) (n_as n_per_expert : Z) : list Z :=
  filter (fun i => 0 < count_zeros (block cs i n_per_expert)) (seqZ 0 n_as).

(** [for (j = 0; j < n_per; ++j) p[i * n_per + j] = x] *)
Definition fill_block {A} (x : A) (i n_per : Z) (l : list A) : list A :=
  fold_left (fun l j => <[Z.to_nat (i * n_per + j) := x]> l) (seqZ 0 n_per) l.

(** the writes through the cast-away-const pointers for the bad experts *)
Definition repair (bad : list Z) (n_per_expert : Z) (e : Stats) : Stats :=
  fold_left
    (fun e i =>
       mkStats (activations e)
               (fill_block F32.bits_one i n_per_expert (values e))
               (fill_block 1 i n_per_expert (counts e))
               (ncall e) (n_as e))
    bad e.

(** [bad_experts.size() < round(n_as * 0.05)], evaluated in [double] *)
Definition few_bad (n_bad n_as : Z) : bool :=
  F64.ltb (F64.of_int n_bad) (F64.round (F64.mul (F64.of_int n_as) F64.c0_05)).

(** What the first loop of [save_imatrix] decides for one entry. *)
Inductive verdict :=
| Ignored                 (* counts is empty: silently passed over *)
| NoData                  (* "has no data - skipping" *)
| PartialSkipped          (* "has partial data ... - skipping" *)
| Stored (e' : Stats).    (* stored; [e'] is the entry after the loop body *)

Definition examine (e : Stats) : verdict :=
  let n_all := Z.of_nat (length (counts e)) in
  if n_all =? 0 then Ignored
  else
    let n_zeros := count_zeros (counts e) in
    if n_zeros =? n_all then NoData
    else if 0 <? n_zeros then
      if 1 <? n_as e then
        let n_per_expert := Z.quot n_all (n_as e) in
        let bad := bad_experts (counts e) (n_as e) n_per_expert in
        if few_bad (Z.of_nat (length bad)) (n_as e)
        then Stored (repair bad n_per_expert e)
        else PartialSkipped
      else PartialSkipped
    else Stored e.

(** The first loop: the names to store, in iteration order, and the map
    after the in-place repairs. *)
Definition select_step (acc : list string * gmap string Stats) (kv : string * Stats)
  : list string * gmap string Stats :=
  match examine (snd kv) with
  | Stored e' => (fst acc ++ [fst kv], <[fst kv := e']> (snd acc))
  | _ => acc
  end.

Definition select_entries (m : gmap string Stats) : list string * gmap string Stats :=
  fold_left select_step (map_to_list m) ([], m).

(** [(stat.values[i] / (float) stat.counts[i]) * (float) stat.ncall] *)
Definition derived_value (ncall : Z) (v c : Z) : Z :=
  F32.to_bits (F32.mul (F32.div (F32.of_bits v) (F32.of_int c)) (F32.of_int ncall)).

(** [tmp]; [counts] is as long as [values] in every state the collector
    builds, an index past its end is read as 0 here. *)
Definition derived_values (stat : Stats) : list Z :=
  imap (fun i v => derived_value (ncall stat) v (default 0 (counts stat !! i))) (values stat).

Definition bytes_of_string (s : string) : list byte := list_byte_of_string s.

Definition encode_entry (name : string) (stat : Stats) : list byte :=
  write_i32 (Z.of_nat (String.length name)) ++ bytes_of_string name ++
  write_i32 (ncall stat) ++
  write_i32 (Z.of_nat (length (values stat))) ++
  flat_map write_f32 (derived_values stat).

Definition encode_entries (m : gmap string Stats) (to_store : list string) : list byte :=
  flat_map (fun name => from_option (encode_entry name) [] (m !! name)) to_store.

(** the trailer: [m_last_call], then the length and bytes of [prompt_file] *)
Definition encode_trailer (c : IMatrixCollector) : list byte :=
  write_i32 (m_last_call c) ++
  write_i32 (Z.of_nat (String.length (prompt_file (m_params c)))) ++
  bytes_of_string (prompt_file (m_params c)).

Definition snapshot_name (ncall : Z) (c : IMatrixCollector) : string :=
  let fname := if String.eqb (out_file (m_params c)) "" then "imatrix.dat"%string
               else out_file (m_params c) in
  if 0 <? ncall then (fname +:+ ".at_" +:+ pretty ncall)%string else fname.

(** [save_imatrix(ncall)]: the file written and the collector afterwards.
    The method is declared [const] but writes to the vectors of repaired
    entries. *)
Definition save_imatrix (ncall : Z) (c : IMatrixCollector)
  : (string * list byte) * IMatrixCollector :=
  let '(to_store, m') := select_entries (m_stats c) in
  let n_entries := Z.of_nat (length to_store) in
  let c' := set_stats m' c in
  ((snapshot_name ncall c,
    write_i32 n_entries ++ encode_entries m' to_store ++ encode_trailer c'),
   c').

(** ** SerializationCodec: load_imatrix *)

(** [std::ifstream]: the unread bytes and the fail bit *)
Record istream := mkStream {
  unread : list byte;
  failbit : bool
}.

(** [in.read(buf, n)]: the bytes delivered and the stream afterwards; a
    failed stream delivers nothing, a short read sets the fail bit. *)
Definition read (n : Z) (s : istream) : list byte * istream :=
  if failbit s then ([], s)
  else if (0 <=? n) && (n <=? Z.of_nat (length (unread s)))
  then (take (Z.to_nat n) (unread s), mkStream (drop (Z.to_nat n) (unread s)) false)
  else (unread s, mkStream [] true).

(** [std::string name{name_as_vec.data()}]: up to the first NUL *)
Fixpoint c_string (bs : list byte) : string :=
  match bs with
  | [] => EmptyString
  | b :: bs' =>
      if Byte.eqb b x00 then EmptyString
      else String (ascii_of_byte b) (c_string bs')
  end.

(** the floats of a buffer of [4 * n] bytes *)
Fixpoint floats_of_bytes (bs : list byte) : list Z :=
  match bs with
  | b0 :: b1 :: b2 :: b3 :: bs' => read_f32 [b0; b1; b2; b3] :: floats_of_bytes bs'
  | _ => []
  end.

(** [e.values[i] += tmp[i]; e.counts[i] += ncall] for [i] from [i] on;
    [None] is an index past the end or a signed overflow. *)
Fixpoint merge_values (tmp : list Z) (ncall : Z) (i : nat) (vs cs : list Z)
  : option (list Z * list Z) :=
  match tmp with
  | [] => Some (vs, cs)
  | t :: tmp' =>
      match vs !! i, cs !! i with
      | Some v, Some c =>
          match Int32.add c ncall with
          | Some c' =>
              merge_values tmp' ncall (S i)
                (<[i := F32.to_bits (F32.add (F32.of_bits v) (F32.of_bits t))]> vs)
                (<[i := c']> cs)
          | None => None
          end
      | _, _ => None
      end
  end.

(** the body of the loop over the entries of the file *)
Definition load_entry (in0 : istream) : M IMatrixCollector (option istream) :=
  let '(len_bytes, in1) := read 4 in0 in
  if failbit in1 then ret None
  else
    let len := read_i32 len_bytes in
    if len =? Int32.max_signed then undefined
    else if len + 1 <? 0 then abort
    else
      let '(name_bytes, in2) := read len in1 in
      if failbit in2 then ret None
      else
        let name := c_string name_bytes in
        do c <- get;
        let e := default Stats_default (m_stats c !! name) in
        put (set_stats (<[name := e]> (m_stats c)) c) ;;
        let '(ncall_bytes, in3) := read 4 in2 in
        let ncall_in := read_i32 ncall_bytes in
        let '(nval_bytes, in4) := read 4 in3 in
        let nval := read_i32 nval_bytes in
        if failbit in4 || (nval <? 1) then
          modify (set_stats ∅) ;; ret None
        else
          let e1 :=
            if bool_decide (values e = [])
            then mkStats (activations e)
                         (resize (Z.to_nat nval) F32.bits_zero (values e))
                         (resize (Z.to_nat nval) 0 (counts e))
                         (ncall e) (n_as e)
            else e in
          do c1 <- get;
          put (set_stats (<[name := e1]> (m_stats c1)) c1) ;;
          let '(tmp_bytes, in5) := read (nval * 4) in4 in
          if failbit in5 then
            modify (set_stats ∅) ;; ret None
          else
            match merge_values (floats_of_bytes tmp_bytes) ncall_in 0 (values e1) (counts e1),
                  Int32.add (ncall e1) ncall_in with
            | Some (vs, cs), Some n =>
                do c2 <- get;
                put (set_stats (<[name := mkStats (activations e1) vs cs n (n_as e1)]>
                                  (m_stats c2)) c2) ;;
                ret (Some in5)
            | _, _ => undefined
            end.

Fixpoint load_entries (n : nat) (in0 : istream) : M IMatrixCollector bool :=
  match n with
  | O => ret true
  | S n' =>
      do r <- load_entry in0;
      match r with
      | Some in1 => load_entries n' in1
      | None => ret false
      end
  end.

(** [load_imatrix(fname)]; [file] is the content of [fname], [None] when
    it cannot be opened. *)
Definition load_imatrix (file : option (list byte)) : M IMatrixCollector bool :=
  match file with
  | None => ret false
  | Some bytes =>
      let '(n_bytes, in1) := read 4 (mkStream bytes false) in
      let n_entries := read_i32 n_bytes in
      if failbit in1 || (n_entries <? 1) then ret false
      else load_entries (Z.to_nat n_entries) in1
  end.

(** ** StatsAccumulator: collect_imatrix *)

Inductive ggml_op := GGML_OP_MUL_MAT | GGML_OP_MUL_MAT_ID | GGML_OP_OTHER.
Inductive ggml_type := GGML_TYPE_F32 | GGML_TYPE_OTHER.

(** What [collect_imatrix] reads of the tensor [t]: its operation, the
    name and expert count of [src0], the shape, strides and host data of
    [src1], and the shape, strides and bytes of the expert ids [src[2]]. *)
Record ggml_tensor := mkTensor {
  op : ggml_op;
  src0_name : string;
  src0_ne2 : Z;
  src1_type : ggml_type;
  src1_ne0 : Z;
  src1_ne1 : Z;
  src1_ne2 : Z;
  src1_nb1 : Z;
  src1_nb2 : Z;
  src1_data : list Z;
  ids_ne0 : Z;
  ids_ne1 : Z;
  ids_nb0 : Z;
  ids_nb1 : Z;
  ids_data : list byte
}.

Definition the_collector : M World IMatrixCollector :=
  fun w => Returns (collector w) w.

Definition update_collector (f : IMatrixCollector -> IMatrixCollector) : M World unit :=
  modify (fun w => mkWorld (f (collector w)) (written w)).

(** a call of [save_imatrix] from the collector: the file is written and
    the repairs stay in the collector *)
Definition call_save (ncall : Z) : M World unit :=
  fun w =>
    let '(file, c') := save_imatrix ncall (collector w) in
    Returns tt (mkWorld c' (written w ++ [file])).

(** the entry behind the reference [e] *)
Definition entry (wname : string) : M World Stats :=
  fun w => Returns (default Stats_default (m_stats (collector w) !! wname)) w.

Definition set_entry (wname : string) (e : Stats) : M World unit :=
  update_collector (fun c => set_stats (<[wname := e]> (m_stats c)) c).

(** [auto & e = m_stats[wname]]: a missing entry is default-constructed *)
Definition entry_ref (wname : string) : M World Stats :=
  do e <- entry wname;
  set_entry wname e ;;
  ret e.

Definition set_ncall (n : Z) (e : Stats) : Stats :=
  mkStats (activations e) (values e) (counts e) n (n_as e).

(** the three vectors resized to [n] zeros, and [n_as] set *)
Definition sized (n : nat) (n_as' : Z) (e : Stats) : Stats :=
  mkStats (resize n F32.bits_zero (activations e))
          (resize n F32.bits_zero (values e))
          (resize n 0 (counts e))
          (ncall e) n_as'.

Inductive acc_result :=
| AccOk (e : Stats)
| AccNonFinite (e : Stats)   (* the state when [isfinite] fails *)
| AccUndefined.

(** [e.activations[k] = x; e.values[k] += x*x; e.counts[k]++] and the
    [isfinite] test *)
Definition accumulate_elem (k : nat) (x : Z) (e : Stats) : acc_result :=
  match activations e !! k, values e !! k, counts e !! k with
  | Some _, Some v, Some c =>
      match Int32.add c 1 with
      | Some c' =>
          let v' := F32.to_bits
                      (F32.add (F32.of_bits v)
                               (F32.mul (F32.of_bits x) (F32.of_bits x))) in
          let e' := mkStats (<[k := x]> (activations e)) (<[k := v']> (values e))
                            (<[k := c']> (counts e)) (ncall e) (n_as e) in
          if F32.is_finite (F32.of_bits v') then AccOk e' else AccNonFinite e'
      | None => AccUndefined
      end
  | _, _, _ => AccUndefined
  end.

(** the loop over [j] for the row that starts at [data[x]], written to
    the elements from [e_start] on *)
Fixpoint accumulate_row (data : list Z) (x e_start : Z) (js : list Z) (e : Stats)
  : acc_result :=
  match js with
  | [] => AccOk e
  | j :: js' =>
      if (x + j <? 0) || (e_start + j <? 0) then AccUndefined
      else
        match data !! Z.to_nat (x + j) with
        | Some xj =>
            match accumulate_elem (Z.to_nat (e_start + j)) xj e with
            | AccOk e' => accumulate_row data x e_start js' e'
            | r => r
            end
        | None => AccUndefined
        end
  end.

Definition observe_row (wname : string) (data : list Z) (x e_start ne0 : Z)
  : M World unit :=
  do e <- entry wname;
  match accumulate_row data x e_start (seqZ 0 ne0) e with
  | AccOk e' => set_entry wname e'
  | AccNonFinite e' => set_entry wname e' ;; exit_ 1
  | AccUndefined => undefined
  end.

(** [if (e.ncall > m_last_call) { ... }]: the periodic snapshots *)
Definition checkpoint (wname : string) : M World unit :=
  do e <- entry wname;
  do c <- the_collector;
  if m_last_call c <? ncall e then
    update_collector (set_last_call (ncall e)) ;;
    (if n_out_freq (m_params c) =? 0 then undefined
     else if Z.rem (ncall e) (n_out_freq (m_params c)) =? 0 then call_save (-1)
     else ret tt) ;;
    (if (0 <? n_save_freq (m_params c))
        && (Z.rem (ncall e) (n_save_freq (m_params c)) =? 0)
     then call_save (ncall e)
     else ret tt)
  else ret tt.

(** the [int32_t] at [m_ids.data() + row * nb1 + idx * nb0] *)
Definition read_id (t : ggml_tensor) (row idx : Z) : option Z :=
  let off := row * ids_nb1 t + idx * ids_nb0 t in
  if (0 <=? off) && (off + 4 <=? Z.of_nat (length (ids_data t)))
  then Some (read_i32 (take 4 (drop (Z.to_nat off) (ids_data t))))
  else None.

(** the [GGML_OP_MUL_MAT_ID] branch *)
Definition collect_routed (t : ggml_tensor) (wname : string) : M World unit :=
  let n_as' := Int32.wrap (src0_ne2 t) in
  let n_ids := Int32.wrap (ids_ne0 t) in
  if negb (ids_ne1 t =? src1_ne2 t) then abort
  else
    do e0 <- entry_ref wname;
    match Int32.add (ncall e0) 1 with
    | None => undefined
    | Some n1 =>
        let e1 := set_ncall n1 e0 in
        set_entry wname e1 ;;
        (if bool_decide (values e1 = []) then
           if src1_ne0 t * n_as' <? 0 then abort
           else set_entry wname (sized (Z.to_nat (src1_ne0 t * n_as')) n_as' e1)
         else if negb (Z.of_nat (length (values e1)) =?
                       SizeT.wrap (SizeT.wrap (src1_ne0 t) * SizeT.wrap n_as'))
         then exit_ 1
         else ret tt) ;;
        for_each (seqZ 0 n_as') (fun ex =>
          let e_start := SizeT.wrap (ex * src1_ne0 t) in
          for_each (seqZ 0 n_ids) (fun idx =>
            for_each (seqZ 0 (Int32.wrap (src1_ne2 t))) (fun row =>
              match read_id t row idx with
              | None => undefined
              | Some excur =>
                  if negb ((0 <=? excur) && (excur <? n_as')) then abort
                  else if negb (excur =? ex) then ret tt
                  else if src1_ne1 t =? 0 then undefined
                  else
                    let i11 := Z.rem idx (src1_ne1 t) in
                    let i12 := row in
                    let off := i11 * src1_nb1 t + i12 * src1_nb2 t in
                    if negb (Z.rem off 4 =? 0) then undefined
                    else observe_row wname (src1_data t) (Z.quot off 4) e_start
                                     (Int32.wrap (src1_ne0 t))
              end)) ;;
          checkpoint wname)
    end.

(** the [else] branch: a plain matrix multiplication *)
Definition collect_plain (t : ggml_tensor) (wname : string) : M World unit :=
  do e0 <- entry_ref wname;
  (if bool_decide (values e0 = []) then
     if src1_ne0 t <? 0 then abort
     else set_entry wname (sized (Z.to_nat (src1_ne0 t)) (n_as e0) e0)
   else if negb (Z.of_nat (length (values e0)) =? SizeT.wrap (src1_ne0 t))
   then exit_ 1
   else ret tt) ;;
  do e1 <- entry wname;
  match Int32.add (ncall e1) 1 with
  | None => undefined
  | Some n1 =>
      set_entry wname (set_ncall n1 e1) ;;
      for_each (seqZ 0 (Int32.wrap (src1_ne1 t * src1_ne2 t))) (fun row =>
        observe_row wname (src1_data t) (row * src1_ne0 t) 0
                    (Int32.wrap (src1_ne0 t))) ;;
      checkpoint wname
  end.

(** [collect_imatrix(t, ask, user_data)] *)
Definition collect_imatrix (t : ggml_tensor) (ask : bool) : M World bool :=
  let wname := filter_tensor_name (src0_name t) in
  if ask then
    do c <- the_collector;
    ret (match op t with
         | GGML_OP_MUL_MAT_ID => true
         | GGML_OP_MUL_MAT =>
             if (src1_ne1 t <? 16)
                || negb (match src1_type t with GGML_TYPE_F32 => true | _ => false end)
             then false
             else String.prefix "blk." wname
                  || (process_output (m_params c)
                      && String.eqb wname (output_tensor_name (m_params c)))
         | GGML_OP_OTHER => false
         end)
  else
    match op t with
    | GGML_OP_MUL_MAT_ID => collect_routed t wname
    | _ => collect_plain t wname
    end ;;
    ret true.

(** ** LayerImportanceScorer: extract_layer and compute_lim *)

(** [std::string] positions are [size_t] values; [npos] stands for "not
    found". *)

(** [s.find(c, pos)] *)
Fixpoint find_at (c : ascii) (s : string) (i pos : Z) : Z :=
  match s with
  | EmptyString => SizeT.npos
  | String a s' =>
      if (pos <=? i) && Ascii.eqb a c then i else find_at c s' (i + 1) pos
  end.

Definition find (c : ascii) (s : string) (pos : Z) : Z := find_at c s 0 pos.

(** [s.rfind(c)] *)
Fixpoint rfind_at (c : ascii) (s : string) (i : Z) (last : Z) : Z :=
  match s with
  | EmptyString => last
  | String a s' => rfind_at c s' (i + 1) (if Ascii.eqb a c then i else last)
  end.

Definition rfind (c : ascii) (s : string) : Z := rfind_at c s 0 SizeT.npos.

(** [s.substr(pos, count)] for [pos <= s.size()], which holds at every
    call below *)
Definition substr (s : string) (pos count : Z) : string :=
  let size := Z.of_nat (String.length s) in
  let n := Z.min count (size - pos) in
  String.substring (Z.to_nat pos) (Z.to_nat n) s.

Definition is_space (a : ascii) : bool :=
  let n := Z.of_N (N_of_ascii a) in
  (n =? 32) || ((9 <=? n) && (n <=? 13)).

Definition digit_value (a : ascii) : option Z :=
  let n := Z.of_N (N_of_ascii a) in
  if (48 <=? n) && (n <=? 57) then Some (n - 48) else None.

Fixpoint skip_spaces (s : string) : string :=
  match s with
  | String a s' => if is_space a then skip_spaces s' else s
  | EmptyString => s
  end.

(** the value of the longest prefix of digits; [None] when there is none *)
Fixpoint leading_digits (s : string) (acc : option Z) : option Z :=
  match s with
  | String a s' =>
      match digit_value a with
      | Some d => leading_digits s' (Some (10 * default 0 acc + d))
      | None => acc
      end
  | EmptyString => acc
  end.

(** [std::stoi(s)]; [None] is a thrown [std::invalid_argument] or
    [std::out_of_range] *)
Definition stoi (s : string) : option Z :=
  let s1 := skip_spaces s in
  let '(neg, s2) :=
    match s1 with
    | String "-" s' => (true, s')
    | String "+" s' => (false, s')
    | _ => (false, s1)
    end in
  match leading_digits s2 None with
  | Some v =>
      let v' := if neg then - v else v in
      if Int32.in_rangeb v' then Some v' else None
  | None => None
  end.

(** [extract_layer(name)] *)
Definition extract_layer (name : string) : option Z :=
  let p1 := SizeT.wrap (find "." name 0 + 1) in
  let p2 := find "." name p1 in
  stoi (substr name p1 (SizeT.wrap (p2 - p1))).

(** the key of the group: the text between the second and the last dot *)
Definition family_name (full_name : string) : string :=
  let p1 := SizeT.wrap (find "." full_name 0 + 1) in
  let p2 := find "." full_name p1 in
  substr full_name (SizeT.wrap (p2 + 1)) (SizeT.wrap (rfind "." full_name - p2 - 1)).

(** The lines of the report. *)
Inductive lim_line :=
| LimTensor (tensor_name : string)
| LimNeedTwoLayers
| LimSkipDimension (layer : Z) (n_in n_out : nat)
| LimSkipZeroMagnitude (layer : Z)
| LimScore (layer : Z) (lim_score : spec_float).

(** the loop over [j]: dot product and squared magnitudes in [float] *)
Fixpoint lim_sums (input_acts output_acts : list Z) (acc : spec_float * spec_float * spec_float)
  : spec_float * spec_float * spec_float :=
  match input_acts, output_acts with
  | a :: input', b :: output' =>
      let '(dot_product, input_magnitude, output_magnitude) := acc in
      let x := F32.of_bits a in
      let y := F32.of_bits b in
      lim_sums input' output'
        (F32.add dot_product (F32.mul x y),
         F32.add input_magnitude (F32.mul x x),
         F32.add output_magnitude (F32.mul y y))
  | _, _ => acc
  end.

(** the body of the loop over adjacent layers *)
Definition lim_pair (layer : Z) (input_acts output_acts : list Z) : lim_line :=
  if negb (length input_acts =? length output_acts)%nat
  then LimSkipDimension layer (length input_acts) (length output_acts)
  else
    let '(dot_product, im, om) :=
      lim_sums input_acts output_acts (F32.zero, F32.zero, F32.zero) in
    let input_magnitude := F32.sqrt im in
    let output_magnitude := F32.sqrt om in
    if F32.eqb input_magnitude F32.zero || F32.eqb output_magnitude F32.zero
    then LimSkipZeroMagnitude layer
    else
      let cosine_sim := F32.div dot_product (F32.mul input_magnitude output_magnitude) in
      LimScore layer (F32.opp cosine_sim).

Fixpoint lim_pairs (layers : list (Z * list Z)) : list lim_line :=
  match layers with
  | (layer, input_acts) :: (((_, output_acts) :: _) as rest) =>
      lim_pair layer input_acts output_acts :: lim_pairs rest
  | _ => []
  end.

Definition lim_group (group : string * list (Z * list Z)) : list lim_line :=
  LimTensor (fst group) ::
  (if (length (snd group) <? 2)%nat then [LimNeedTwoLayers] else lim_pairs (snd group)).

(** every key with its layer number; [None] when [std::stoi] throws on one *)
Definition with_layers (kvs : list (string * Stats)) : option (list (Z * (string * Stats))) :=
  mapM (fun kv => layer ← extract_layer (fst kv); Some (layer, kv)) kvs.

Definition group_step (g : gmap string (list (Z * list Z))) (p : Z * (string * Stats))
  : gmap string (list (Z * list Z)) :=
  let tensor_name := family_name (fst (snd p)) in
  <[tensor_name := default [] (g !! tensor_name) ++ [(fst p, activations (snd (snd p)))]]> g.

(** the order of [std::sort]: by layer number *)
Definition layer_le (a b : Z * (string * Stats)) : Prop := fst a <= fst b.

#[global] Instance layer_le_dec : RelDecision layer_le.
Proof. intros a b. unfold layer_le. apply _. Defined.

(** [compute_lim()]: the report; [None] when an exception of [std::stoi]
    ends the process.  [std::sort] is modelled by a stable sort. *)
Definition compute_lim (c : IMatrixCollector) : option (list lim_line) :=
  if bool_decide (m_stats c = ∅) then Some []
  else
    match with_layers (map_to_list (m_stats c)) with
    | None => None
    | Some pairs =>
        let sorted_pairs := merge_sort layer_le pairs in
        let tensor_groups := fold_left group_step sorted_pairs ∅ in
        Some (flat_map lim_group (map_to_list tensor_groups))
    end.

(** ** LogLikelihoodReducer: log_softmax *)


Section LogLikelihood.

(** the two functions of the C library used by the kernel *)
Variable expf : spec_float -> spec_float.
Variable log : spec_float -> spec_float.



End LogLikelihood.

(** ** Auxiliary definitions for the statements *)

(** membership of an element index in the block of one of the experts of [bad] *)
Definition in_blocks (bad : list Z) (n : Z) (k : nat) : Prop :=
  Exists (fun i => i * n <= Z.of_nat k < i * n + n) bad.

(** two elements per expert, [n] experts: expert 0 never selected, the
    others observed three times *)
Definition routed_entry (n : Z) : Stats :=
  mkStats (replicate (Z.to_nat (2 * n)) F32.bits_zero)
          ([F32.bits_zero; F32.bits_zero] ++ replicate (Z.to_nat (2 * n - 2)) 0x40400000)
          ([0; 0] ++ replicate (Z.to_nat (2 * n - 2)) 3)
          3 n.

(** 30 experts of two elements; the first expert has one element without
    data and one with count 5 and sum 7.0 *)
Definition mixed_entry : Stats :=
  mkStats (replicate 60 F32.bits_zero)
          ([F32.bits_zero; 0x40E00000] ++ replicate 58 0x40400000)
          ([0; 5] ++ replicate 58 3)
          5 30.

(** the entry as [save_imatrix] leaves it in the collector *)
Definition after_examine (e : Stats) : Stats :=
  match examine e with
  | Stored e' => e'
  | _ => e
  end.

Definition is_stored (e : Stats) : bool :=
  match examine e with
  | Stored _ => true
  | _ => false
  end.

Definition stored_names (l : list (string * Stats)) : list string :=
  (filter (fun kv => is_stored (snd kv) = true) l).*1.

Definition has_sign (s : bool) (x : spec_float) : Prop :=
  match x with
  | S754_zero s' | S754_infinity s' | S754_finite s' _ _ => s' = s
  | S754_nan => True
  end.

Definition example_params : gpt_params :=
  mkParams "" "wiki.txt" 10 0 0 false "output.weight".

Definition fresh_collector : IMatrixCollector := mkCollector ∅ example_params 0.

Definition routed_collector : IMatrixCollector :=
  mkCollector {[ "blk.0.ffn_up_exps.weight"%string := routed_entry 40 ]} example_params 3.


(** one observation of the routed tensor [blk.0.ffn_up_exps.weight]: two
    experts, rows of [ne0] floats, one row routed to expert 0 *)
Definition routed_obs (ne0 : Z) (data : list Z) : ggml_tensor :=
  mkTensor GGML_OP_MUL_MAT_ID "blk.0.ffn_up_exps.weight" 2 GGML_TYPE_F32
           ne0 1 1 (4 * ne0) (4 * ne0) data
           1 1 4 4 [x00; x00; x00; x00].

(** one observation of the plain tensor [blk.0.attn_k.weight]: one row of
    [ne0] floats *)
Definition plain_obs (ne0 : Z) (data : list Z) : ggml_tensor :=
  mkTensor GGML_OP_MUL_MAT "CUDA0#blk.0.attn_k.weight#0" 1 GGML_TYPE_F32
           ne0 1 1 (4 * ne0) (4 * ne0) data
           0 0 0 0 [].

Definition fresh_world : World := mkWorld fresh_collector [].

(** the state after [t] has been observed in the fresh collector *)
Definition world_after (t : ggml_tensor) : World :=
  match collect_imatrix t false fresh_world with
  | Returns _ w => w
  | _ => fresh_world
  end.

(** a snapshot with two entries announced; the first is complete (name
    [a], call count 1, one value 1.0), the second stops inside its name *)
Definition truncated_name_file : list byte :=
  write_i32 2 ++
  write_i32 1 ++ bytes_of_string "a" ++ write_i32 1 ++ write_i32 1 ++ write_f32 F32.bits_one ++
  write_i32 3 ++ bytes_of_string "bc".

(** the same, stopping inside the values of the second entry *)
Definition truncated_values_file : list byte :=
  write_i32 2 ++
  write_i32 1 ++ bytes_of_string "a" ++ write_i32 1 ++ write_i32 1 ++ write_f32 F32.bits_one ++
  write_i32 1 ++ bytes_of_string "b" ++ write_i32 1 ++ write_i32 2 ++ write_f32 F32.bits_one.

(** the call counts of all entries *)
Definition ncalls (w : World) : gmap string Z := ncall <$> m_stats (collector w).

Definition last_call (w : World) : Z := m_last_call (collector w).

(** The states reached from an empty collector by calls of
    [collect_imatrix] that return; a routed tensor has at least one
    expert. *)
Inductive observed : World -> Prop :=
| observed_fresh (p : gpt_params) : observed (mkWorld (mkCollector ∅ p 0) [])
| observed_step (w : World) (t : ggml_tensor) (ask b : bool) (w' : World) :
    observed w ->
    (op t = GGML_OP_MUL_MAT_ID -> 1 <= Int32.wrap (src0_ne2 t)) ->
    collect_imatrix t ask w = Returns b w' ->
    observed w'.

(** the world after [m_stats[k] = e] *)
Definition with_entry (k : string) (e : Stats) (w : World) : World :=
  mkWorld (set_stats (<[k := e]> (m_stats (collector w))) (collector w)) (written w).

(** the entry of [k], default-constructed when there is none *)
Definition entry_of (k : string) (w : World) : Stats :=
  default Stats_default (m_stats (collector w) !! k).

(** the world after the tensors of [ts] have been observed one after the
    other, as long as the calls return *)
Fixpoint observe_all (ts : list ggml_tensor) (w : World) : World :=
  match ts with
  | [] => w
  | t :: ts' =>
      match collect_imatrix t false w with
      | Returns _ w' => observe_all ts' w'
      | _ => w
      end
  end.

(** a plain tensor observed twice and a routed tensor with two experts
    observed three times, always routed to expert 0 *)
Definition mixed_world : World :=
  observe_all
    [plain_obs 2 [0x3F800000; 0x40000000]; plain_obs 2 [0x3F800000; 0x40000000];
     routed_obs 2 [0x3F800000; 0x40000000]; routed_obs 2 [0x3F800000; 0x40000000];
     routed_obs 2 [0x3F800000; 0x40000000]]
    fresh_world.

(** the square [x * x] of an activation, as a pattern *)
Definition sq_bits (x : Z) : Z :=
  F32.to_bits (F32.mul (F32.of_bits x) (F32.of_bits x)).

(** an entry whose last activation is [acts] *)
Definition entry_with_activations (acts : list Z) : Stats :=
  mkStats acts (sq_bits <$> acts) (replicate (length acts) 1) 1 1.

(** two layers of the family [attn_k] with the given last activations *)
Definition two_layers (a b : list Z) : IMatrixCollector :=
  mkCollector
    (<["blk.1.attn_k.weight"%string := entry_with_activations b]>
       {[ "blk.0.attn_k.weight"%string := entry_with_activations a ]})
    example_params 1.


(** the collector after one observation of one row [1.0, 2.0] of the plain
    tensor [blk.0.attn_k.weight] *)
Definition observed_once : IMatrixCollector :=
  collector (world_after (plain_obs 2 [0x3F800000; 0x40000000])).

(** the part of a snapshot before the trailer for that collector: one
    entry with call count 1 and the values 1.0 and 4.0 *)
Definition observed_once_entries : list byte :=
  write_i32 1 ++
  write_i32 19 ++ bytes_of_string "blk.0.attn_k.weight" ++ write_i32 1 ++ write_i32 2 ++
  write_f32 0x3F800000 ++ write_f32 0x40800000.





(** * Properties *)

(** ** The numeric formats on examples *)

Example f32_one_bits : F32.bits_one = 0x3F800000.
Proof. reflexivity. Qed.

Example f32_decode_one : F32.of_bits 0x3F800000 = F32.one.
Proof. reflexivity. Qed.

Example f64_round_20 : F64.round (F64.mul (F64.of_int 20) F64.c0_05) = F64.of_int 1.
Proof. vm_compute. reflexivity. Qed.

Example f64_round_10 : F64.round (F64.mul (F64.of_int 10) F64.c0_05) = F64.of_int 1.
Proof. vm_compute. reflexivity. Qed.

Example f64_round_9 : F64.round (F64.mul (F64.of_int 9) F64.c0_05) = S754_zero false.
Proof. vm_compute. reflexivity. Qed.

Example f64_round_30 : F64.round (F64.mul (F64.of_int 30) F64.c0_05) = F64.of_int 2.
Proof. vm_compute. reflexivity. Qed.

(** ** The encode policy: zero counts, bad experts, repair *)

Lemma count_zeros_fold (cs : list Z) (n : Z) :
  fold_left (fun n c => if c =? 0 then n + 1 else n) cs n
  = n + Z.of_nat (length (filter (fun c => c = 0) cs)).
Proof.
  revert n. induction cs as [|c cs IH]; intros n; simpl; [lia|].
  rewrite IH, filter_cons. destruct (Z.eqb_spec c 0); case_decide; try done; simpl; lia.
Qed.

Lemma count_zeros_filter (cs : list Z) :
  count_zeros cs = Z.of_nat (length (filter (fun c => c = 0) cs)).
Proof. unfold count_zeros. rewrite count_zeros_fold. lia. Qed.

Lemma count_zeros_bounds (cs : list Z) : 0 <= count_zeros cs <= Z.of_nat (length cs).
Proof.
  rewrite count_zeros_filter. pose proof (length_filter (fun c => c = 0) cs). lia.
Qed.

Lemma count_zeros_pos (cs : list Z) : 0 < count_zeros cs <-> 0 ∈ cs.
Proof.
  rewrite count_zeros_filter. split.
  - intros H. destruct (filter (fun c => c = 0) cs) as [|c l] eqn:E; simpl in H; [lia|].
    assert (Hc : c ∈ filter (fun c => c = 0) cs) by (rewrite E; left).
    apply list_elem_of_filter in Hc as [-> ?]. done.
  - intros H. assert (Hc : 0 ∈ filter (fun c => c = 0) cs) by (apply list_elem_of_filter; done).
    destruct (filter (fun c => c = 0) cs); [by apply not_elem_of_nil in Hc | simpl; lia].
Qed.


Lemma count_zeros_all (cs : list Z) :
  count_zeros cs = Z.of_nat (length cs) -> Forall (fun c => c = 0) cs.
Proof.
  rewrite count_zeros_filter. intros H.
  induction cs as [|c cs IH]; [constructor|].
  rewrite filter_cons in H. pose proof (length_filter (fun c => c = 0) cs).
  case_decide; simpl in H; [|lia].
  constructor; [done|]. apply IH. lia.
Qed.

Lemma bad_experts_spec (cs : list Z) (n_as n_per : Z) (i : Z) :
  i ∈ bad_experts cs n_as n_per <-> 0 <= i < n_as /\ 0 ∈ block cs i n_per.
Proof.
  unfold bad_experts. rewrite list_elem_of_filter, elem_of_seqZ.
  pose proof (count_zeros_pos (block cs i n_per)). simpl. intuition lia.
Qed.

Lemma length_fill_block {A} (x : A) (i n : Z) (l : list A) :
  length (fill_block x i n l) = length l.
Proof.
  unfold fill_block. generalize (seqZ 0 n) as js. intros js. revert l.
  induction js as [|j js IH]; intros l; simpl; [done|].
  by rewrite IH, length_insert.
Qed.

Lemma lookup_fill_fold {A} (x : A) (f : Z -> nat) (js : list Z) (l : list A) (k : nat) :
  fold_left (fun l j => <[f j := x]> l) js l !! k
  = if decide (k ∈ f <$> js) then (fun _ => x) <$> l !! k else l !! k.
Proof.
  revert l. induction js as [|j js IH]; intros l.
  - cbn [fold_left]. rewrite fmap_nil.
    destruct (decide (k ∈ [])) as [H|H]; [by apply not_elem_of_nil in H | done].
  - cbn [fold_left]. rewrite fmap_cons, IH, list_lookup_insert.
    destruct (decide (k ∈ f <$> js)) as [H1|H1];
      destruct (decide (k ∈ f j :: (f <$> js))) as [H2|H2];
      destruct (decide (f j = k /\ (f j < length l)%nat)) as [H3|H3]; try done.
    + destruct H3 as [<- H3]. apply lookup_lt_is_Some in H3 as [y Hy]. by rewrite Hy.
    + exfalso. apply H2. by right.
    + exfalso. apply H2. by right.
    + destruct H3 as [<- H3]. apply lookup_lt_is_Some in H3 as [y Hy]. by rewrite Hy.
    + destruct (decide (f j = k)) as [<-|Hne].
      * rewrite lookup_ge_None_2; [done|]. lia.
      * exfalso. apply elem_of_cons in H2 as [?|?]; [congruence | done].
    + exfalso. apply H2. destruct H3 as [<- _]. by left.
Qed.

Lemma lookup_fill_block {A} (x : A) (i n : Z) (l : list A) (k : nat) :
  0 <= i * n ->
  fill_block x i n l !! k
  = if decide (i * n <= Z.of_nat k < i * n + n) then (fun _ => x) <$> l !! k else l !! k.
Proof.
  intros Hi. unfold fill_block.
  rewrite (lookup_fill_fold x (fun j => Z.to_nat (i * n + j))).
  assert (k ∈ (fun j => Z.to_nat (i * n + j)) <$> seqZ 0 n
          <-> i * n <= Z.of_nat k < i * n + n) as Hiff.
  { rewrite list_elem_of_fmap. setoid_rewrite elem_of_seqZ. split.
    - intros (j & -> & Hj). lia.
    - intros Hk. exists (Z.of_nat k - i * n). split; lia. }
  case_decide; case_decide; tauto.
Qed.

Lemma lookup_fill_blocks {A} (x : A) (bad : list Z) (n : Z) (l : list A) (k : nat) :
  0 <= n -> Forall (fun i => 0 <= i) bad ->
  fold_left (fun l i => fill_block x i n l) bad l !! k
  = if decide (in_blocks bad n k) then (fun _ => x) <$> l !! k else l !! k.
Proof.
  intros Hn Hbad. revert l. unfold in_blocks.
  induction Hbad as [|i bad Hi Hbad IH]; intros l; cbn [fold_left].
  - destruct (decide (Exists (fun i => i * n <= Z.of_nat k < i * n + n) [])) as [H|H];
      [by apply Exists_nil in H | done].
  - rewrite IH, lookup_fill_block by (apply Z.mul_nonneg_nonneg; lia).
    destruct (decide (Exists (fun i => i * n <= Z.of_nat k < i * n + n) bad)) as [H1|H1];
      destruct (decide (i * n <= Z.of_nat k < i * n + n)) as [H2|H2];
      destruct (decide (Exists (fun i => i * n <= Z.of_nat k < i * n + n) (i :: bad)))
        as [H3|H3]; try done.
    + by destruct (l !! k).
    + exfalso. apply H3. by right.
    + exfalso. apply H3. by right.
    + exfalso. apply H3. by left.
    + exfalso. apply Exists_cons in H3 as [?|?]; done.
Qed.

Lemma repair_fields (bad : list Z) (n : Z) (e : Stats) :
  activations (repair bad n e) = activations e /\
  values (repair bad n e) = fold_left (fun l i => fill_block F32.bits_one i n l) bad (values e) /\
  counts (repair bad n e) = fold_left (fun l i => fill_block 1 i n l) bad (counts e) /\
  ncall (repair bad n e) = ncall e /\
  n_as (repair bad n e) = n_as e.
Proof.
  unfold repair. revert e. induction bad as [|i bad IH]; intros e; simpl; [done|].
  destruct (IH (mkStats (activations e) (fill_block F32.bits_one i n (values e))
                        (fill_block 1 i n (counts e)) (ncall e) (n_as e)))
    as (-> & -> & -> & -> & ->). done.
Qed.

Lemma length_fill_blocks {A} (x : A) (bad : list Z) (n : Z) (l : list A) :
  length (fold_left (fun l i => fill_block x i n l) bad l) = length l.
Proof.
  revert l. induction bad as [|i bad IH]; intros l; simpl; [done|].
  by rewrite IH, length_fill_block.
Qed.

Lemma in_blocks_quot (bad : list Z) (n : Z) (k : nat) :
  0 < n -> in_blocks bad n k <-> Z.of_nat k / n ∈ bad.
Proof.
  intros Hn. unfold in_blocks. rewrite Exists_exists. split.
  - intros (i & Hi & Hk).
    assert (Z.of_nat k / n = i) as ->; [|done].
    symmetry. apply Z.div_unique with (r := Z.of_nat k - i * n); lia.
  - intros Hin. exists (Z.of_nat k / n). split; [done|].
    pose proof (Z.div_mod (Z.of_nat k) n). pose proof (Z.mod_pos_bound (Z.of_nat k) n). lia.
Qed.

Lemma bad_experts_nonneg (cs : list Z) (n_as n_per : Z) :
  Forall (fun i => 0 <= i) (bad_experts cs n_as n_per).
Proof. apply Forall_forall. intros i Hi. apply bad_experts_spec in Hi. lia. Qed.

Lemma bad_experts_n_per_zero (cs : list Z) (n_as : Z) : bad_experts cs n_as 0 = [].
Proof.
  destruct (bad_experts cs n_as 0) as [|i l] eqn:E; [done|].
  assert (Hi : i ∈ bad_experts cs n_as 0) by (rewrite E; left).
  apply bad_experts_spec in Hi as [_ Hi]. unfold block in Hi. simpl in Hi.
  by apply not_elem_of_nil in Hi.
Qed.

(** the examination of an entry with some, but not only, zero counts *)
Lemma examine_partial (e : Stats) :
  0 < count_zeros (counts e) < Z.of_nat (length (counts e)) ->
  examine e =
    if 1 <? n_as e then
      let n_per := Z.quot (Z.of_nat (length (counts e))) (n_as e) in
      let bad := bad_experts (counts e) (n_as e) n_per in
      if few_bad (Z.of_nat (length bad)) (n_as e) then Stored (repair bad n_per e)
      else PartialSkipped
    else PartialSkipped.
Proof.
  intros H. unfold examine.
  destruct (Z.eqb_spec (Z.of_nat (length (counts e))) 0); [lia|].
  destruct (Z.eqb_spec (count_zeros (counts e)) (Z.of_nat (length (counts e)))); [lia|].
  destruct (Z.ltb_spec 0 (count_zeros (counts e))); [done | lia].
Qed.


(** ** The policy for routed entries with partial data *)

(** C2, as amended: an entry of a routed tensor with partial zero counts is
    stored, after the repair of the affected experts, exactly when the
    number of experts with at least one zero count is strictly less than
    [round(expert_count * 0.05)], and dropped otherwise; with
    [expert_count = 20] the bound is 1, so an entry with one affected
    expert is dropped. *)
Theorem C2_partial_routed_policy (e : Stats) :
  1 < n_as e ->
  0 < count_zeros (counts e) < Z.of_nat (length (counts e)) ->
  let n_per := Z.quot (Z.of_nat (length (counts e))) (n_as e) in
  let bad := bad_experts (counts e) (n_as e) n_per in
  (forall i, i ∈ bad <-> 0 <= i < n_as e /\ 0 ∈ block (counts e) i n_per) /\
  (F64.ltb (F64.of_int (Z.of_nat (length bad)))
           (F64.round (F64.mul (F64.of_int (n_as e)) F64.c0_05)) = true ->
   examine e = Stored (repair bad n_per e)) /\
  (F64.ltb (F64.of_int (Z.of_nat (length bad)))
           (F64.round (F64.mul (F64.of_int (n_as e)) F64.c0_05)) = false ->
   examine e = PartialSkipped) /\
  (n_as e = 20 -> length bad = 1%nat -> examine e = PartialSkipped).
Proof.
  intros Hrouted Hpartial n_per bad.
  pose proof (examine_partial e Hpartial) as Hex.
  destruct (Z.ltb_spec 1 (n_as e)) as [_|]; [|lia].
  cbv zeta in Hex. fold n_per in Hex. fold bad in Hex. unfold few_bad in Hex.
  split; [intros i; apply bad_experts_spec|].
  split; [intros H; by rewrite H in Hex|].
  split; [intros H; by rewrite H in Hex|].
  intros H20 H1. rewrite H20, H1 in Hex. exact Hex.
Qed.

Lemma C2_partial_routed_policy_witness :
  examine (routed_entry 40)
  = Stored (repair [0] 2 (routed_entry 40)).
Proof.
  apply (C2_partial_routed_policy (routed_entry 40)).
  - reflexivity.
  - split; reflexivity.
  - vm_compute. reflexivity.
Defined.

(** C2 as stated fails: with [expert_count = 20] and exactly one expert
    fully zero the entry is dropped, not stored. *)
Lemma C2_counterexample :
  n_as (routed_entry 20) = 20 /\
  bad_experts (counts (routed_entry 20)) 20 2 = [0] /\
  block (counts (routed_entry 20)) 0 2 = [0; 0] /\
  F64.round (F64.mul (F64.of_int 20) F64.c0_05) = F64.of_int 1 /\
  examine (routed_entry 20) = PartialSkipped.
Proof. repeat split; vm_compute; reflexivity. Qed.

(** C5, as amended: the repair forces every element of the block of each
    bad expert to count 1 and sum of squares 1.0, whether or not the count
    of that element was zero; the elements of the other experts, the last
    activation, [ncall] and [n_as] are unchanged. *)
Theorem C5_repair_overwrites_bad_blocks (e : Stats) :
  1 < n_as e ->
  0 < count_zeros (counts e) < Z.of_nat (length (counts e)) ->
  let n_per := Z.quot (Z.of_nat (length (counts e))) (n_as e) in
  let bad := bad_experts (counts e) (n_as e) n_per in
  few_bad (Z.of_nat (length bad)) (n_as e) = true ->
  exists e',
    examine e = Stored e' /\
    activations e' = activations e /\ ncall e' = ncall e /\ n_as e' = n_as e /\
    length (counts e') = length (counts e) /\
    length (values e') = length (values e) /\
    forall k : nat,
      (Z.of_nat k / n_per ∈ bad -> (k < length (counts e))%nat ->
       counts e' !! k = Some 1) /\
      (Z.of_nat k / n_per ∈ bad -> (k < length (values e))%nat ->
       values e' !! k = Some F32.bits_one) /\
      (Z.of_nat k / n_per ∉ bad ->
       counts e' !! k = counts e !! k /\ values e' !! k = values e !! k).
Proof.
  intros Hrouted Hpartial n_per bad Hfew.
  exists (repair bad n_per e).
  pose proof (examine_partial e Hpartial) as Hex.
  destruct (Z.ltb_spec 1 (n_as e)) as [_|]; [|lia].
  cbv zeta in Hex. fold n_per in Hex. fold bad in Hex. rewrite Hfew in Hex.
  destruct (repair_fields bad n_per e) as (Ha & Hv & Hc & Hn & Hs).
  split; [done|]. split; [done|]. split; [done|]. split; [done|].
  split; [by rewrite Hc, length_fill_blocks|].
  split; [by rewrite Hv, length_fill_blocks|].
  assert (0 <= n_per) as Hn0.
  { unfold n_per. apply Z.quot_pos; lia. }
  assert (Forall (fun i => 0 <= i) bad) as Hbad by apply bad_experts_nonneg.
  intros k. rewrite Hc, Hv, !lookup_fill_blocks by done.
  destruct (decide (n_per = 0)) as [Hz|Hz].
  - assert (bad = []) as Hnil by (unfold bad; rewrite Hz; apply bad_experts_n_per_zero).
    rewrite Hnil. unfold in_blocks.
    destruct (decide (Exists (fun i => i * n_per <= Z.of_nat k < i * n_per + n_per) []))
      as [H|H]; [by apply Exists_nil in H|].
    split; [intros Hin; by apply not_elem_of_nil in Hin|].
    split; [intros Hin; by apply not_elem_of_nil in Hin|done].
  - pose proof (in_blocks_quot bad n_per k ltac:(lia)) as Hq.
    destruct (decide (in_blocks bad n_per k)) as [H|H].
    + split; [intros _ Hk; apply lookup_lt_is_Some in Hk as [y ->]; done|].
      split; [intros _ Hk; apply lookup_lt_is_Some in Hk as [y ->]; done|].
      intros Hn'. tauto.
    + split; [tauto|]. split; [tauto|done].
Qed.

Lemma C5_repair_overwrites_bad_blocks_witness :
  exists e',
    examine mixed_entry = Stored e' /\
    activations e' = activations mixed_entry /\ ncall e' = 5 /\ n_as e' = 30 /\
    length (counts e') = 60%nat /\
    length (values e') = 60%nat /\
    forall k : nat,
      (Z.of_nat k / 2 ∈ [0] -> (k < 60)%nat -> counts e' !! k = Some 1) /\
      (Z.of_nat k / 2 ∈ [0] -> (k < 60)%nat -> values e' !! k = Some F32.bits_one) /\
      (Z.of_nat k / 2 ∉ [0] ->
       counts e' !! k = counts mixed_entry !! k /\ values e' !! k = values mixed_entry !! k).
Proof.
  apply (C5_repair_overwrites_bad_blocks mixed_entry).
  - reflexivity.
  - split; reflexivity.
  - vm_compute. reflexivity.
Defined.

(** C5 as stated fails: an element of a repaired expert that already had
    count 5 and sum 7.0 does not keep them. *)
Lemma C5_counterexample :
  exists e',
    examine mixed_entry = Stored e' /\
    counts mixed_entry !! 1%nat = Some 5 /\
    values mixed_entry !! 1%nat = Some 0x40E00000 /\
    counts e' !! 1%nat = Some 1 /\
    values e' !! 1%nat = Some F32.bits_one.
Proof. eexists. repeat split; vm_compute; reflexivity. Qed.

(** ** The first loop of save_imatrix as a map transformation *)

Lemma select_fold (l : list (string * Stats)) (acc : list string) (m0 : gmap string Stats) :
  NoDup l.*1 ->
  (forall k e, (k, e) ∈ l -> m0 !! k = Some e) ->
  exists m1,
    fold_left select_step l (acc, m0) = (acc ++ stored_names l, m1) /\
    forall k, m1 !! k = if decide (k ∈ l.*1) then after_examine <$> m0 !! k else m0 !! k.
Proof.
  revert acc m0. induction l as [|[k1 e1] l IH]; intros acc m0 Hnd Hm0.
  - exists m0. cbn. rewrite app_nil_r. split; [done|]. intros k.
    destruct (decide (k ∈ [])) as [H|H]; [by apply not_elem_of_nil in H | done].
  - rewrite fmap_cons in Hnd. apply NoDup_cons in Hnd as [Hk1 Hnd].
    assert (m0 !! k1 = Some e1) as Hm1 by (apply Hm0; left).
    cbn [fold_left]. unfold select_step at 2. cbn [fst snd].
    unfold stored_names. rewrite filter_cons. cbn [snd].
    assert (forall k, (if decide (k ∈ ((k1, e1) :: l).*1)
                       then after_examine <$> m0 !! k else m0 !! k)
                      = if decide (k = k1) then Some (after_examine e1)
                        else if decide (k ∈ l.*1) then after_examine <$> m0 !! k
                             else m0 !! k) as Hcase.
    { intros k. rewrite fmap_cons. cbn [fst].
      destruct (decide (k = k1)) as [->|Hne].
      - rewrite decide_True by left. by rewrite Hm1.
      - destruct (decide (k ∈ l.*1)) as [H1|H1];
          destruct (decide (k ∈ k1 :: l.*1)) as [H2|H2]; try done.
        + exfalso. apply H2. by right.
        + exfalso. apply elem_of_cons in H2 as [?|?]; done. }
    destruct (examine e1) as [| | |e1'] eqn:Hex.
    1-3: assert (is_stored e1 = false) as Hs by (unfold is_stored; by rewrite Hex);
         rewrite decide_False by (rewrite Hs; done);
         destruct (IH acc m0 Hnd) as (m1 & Hf & Hl);
         [intros k e Hin; apply Hm0; by right|];
         exists m1; rewrite Hf; split; [done|];
         intros k; rewrite Hcase, Hl;
         destruct (decide (k = k1)) as [->|Hne]; [|done];
         rewrite (decide_False (P := k1 ∈ l.*1)) by done;
         rewrite Hm1; unfold after_examine; by rewrite Hex.
    assert (is_stored e1 = true) as Hs by (unfold is_stored; by rewrite Hex).
    rewrite decide_True by done.
    destruct (IH (acc ++ [k1]) (<[k1 := e1']> m0) Hnd) as (m1 & Hf & Hl).
    { intros k e Hin. rewrite lookup_insert_ne; [apply Hm0; by right|].
      intros <-. apply Hk1. apply list_elem_of_fmap. exists (k1, e). done. }
    exists m1. rewrite Hf. rewrite fmap_cons. cbn [fst].
    split; [by rewrite <- app_assoc|].
    intros k. rewrite Hcase, Hl.
    destruct (decide (k = k1)) as [->|Hne].
    + rewrite (decide_False (P := k1 ∈ l.*1)) by done.
      rewrite lookup_insert_eq. unfold after_examine. by rewrite Hex.
    + by rewrite lookup_insert_ne.
Qed.

Lemma select_entries_spec (m : gmap string Stats) :
  select_entries m = (stored_names (map_to_list m), after_examine <$> m).
Proof.
  unfold select_entries.
  destruct (select_fold (map_to_list m) [] m) as (m1 & Hf & Hl).
  - apply NoDup_fst_map_to_list.
  - intros k e. apply elem_of_map_to_list.
  - rewrite Hf. cbn [app]. f_equal. apply map_eq. intros k.
    rewrite Hl, lookup_fmap.
    destruct (decide (k ∈ (map_to_list m).*1)) as [H|H]; [done|].
    destruct (m !! k) as [e|] eqn:E; [|done].
    exfalso. apply H. apply list_elem_of_fmap. exists (k, e).
    split; [done|]. by apply elem_of_map_to_list.
Qed.

(** the bytes and the state of a snapshot *)
Lemma save_imatrix_spec (ncall_arg : Z) (c : IMatrixCollector) :
  save_imatrix ncall_arg c =
  ((snapshot_name ncall_arg c,
    write_i32 (Z.of_nat (length (stored_names (map_to_list (m_stats c))))) ++
    encode_entries (after_examine <$> m_stats c) (stored_names (map_to_list (m_stats c))) ++
    encode_trailer (set_stats (after_examine <$> m_stats c) c)),
   set_stats (after_examine <$> m_stats c) c).
Proof. unfold save_imatrix. by rewrite select_entries_spec. Qed.

(** ** A second examination changes nothing *)

Lemma binary_round_aux_sign (prec emax : Z) (s : bool) (m e : Z) (l : location) :
  has_sign s (binary_round_aux prec emax s m e l).
Proof.
  unfold binary_round_aux.
  destruct (shr_fexp prec emax m e l) as [mrs' e'].
  destruct (shr_fexp prec emax _ e' loc_Exact) as [mrs'' e''].
  destruct (shr_m mrs''); cbn; try done.
  by destruct (e'' <=? emax - prec).
Qed.

Lemma binary_normalize_sign (prec emax : Z) (m e : Z) :
  0 <= m -> has_sign false (binary_normalize prec emax m e false).
Proof.
  intros Hm. destruct m as [|p|p]; cbn; [done| |lia].
  unfold binary_round. destruct (shl_align _ _ _). apply binary_round_aux_sign.
Qed.

Lemma few_bad_zero (k n : Z) : 0 <= k -> few_bad k n = true -> few_bad 0 n = true.
Proof.
  intros Hk. unfold few_bad, F64.ltb, SFltb.
  pose proof (binary_normalize_sign F64.prec F64.emax k 0 Hk) as Hs.
  change (F64.of_int 0) with (S754_zero false).
  fold (F64.of_int k) in Hs.
  destruct (F64.of_int k) as [s|s| |s m e]; cbn in Hs; subst;
    destruct (F64.round _) as [s'|[]| |[] m' e']; cbn; try done.
Qed.

Lemma elem_of_block {A} (l : list A) (i n : Z) (x : A) :
  x ∈ block l i n <->
  exists j : nat, (j < Z.to_nat n)%nat /\ l !! (Z.to_nat (i * n) + j)%nat = Some x.
Proof.
  unfold block. rewrite list_elem_of_lookup. split.
  - intros (j & Hj). rewrite lookup_take in Hj. case_decide; [|done].
    rewrite lookup_drop in Hj. eauto.
  - intros (j & Hlt & Hj). exists j. rewrite lookup_take, decide_True by done.
    by rewrite lookup_drop.
Qed.

Lemma examine_repair_stable (e : Stats) :
  1 < n_as e ->
  0 < count_zeros (counts e) < Z.of_nat (length (counts e)) ->
  let n_per := Z.quot (Z.of_nat (length (counts e))) (n_as e) in
  let bad := bad_experts (counts e) (n_as e) n_per in
  few_bad (Z.of_nat (length bad)) (n_as e) = true ->
  examine (repair bad n_per e) = Stored (repair bad n_per e).
Proof.
  intros Hrouted Hpartial n_per bad Hfew.
  destruct (repair_fields bad n_per e) as (Ha & Hv & Hc & Hn & Hs).
  assert (0 <= n_per) as Hn0 by (unfold n_per; apply Z.quot_pos; lia).
  assert (Forall (fun i => 0 <= i) bad) as Hbad by apply bad_experts_nonneg.
  assert (length (counts (repair bad n_per e)) = length (counts e)) as Hlen
    by (by rewrite Hc, length_fill_blocks).
  destruct bad as [|i0 bad'] eqn:Ebad.
  { pose proof (examine_partial e Hpartial) as Hex.
    destruct (Z.ltb_spec 1 (n_as e)) as [_|]; [|lia].
    cbv zeta in Hex. fold n_per in Hex. fold bad in Hex. rewrite Ebad in Hex.
    rewrite Hfew in Hex. exact Hex. }
  rewrite <- Ebad in *.
  (* an element of a bad block is 1 after the repair *)
  assert (i0 ∈ bad) as Hi0 by (rewrite Ebad; left).
  pose proof Hi0 as Hi0'. apply bad_experts_spec in Hi0' as [Hr0 Hz0].
  apply elem_of_block in Hz0 as (j0 & Hj0 & Hl0).
  assert (0 <= i0 * n_per) as Hin0 by (apply Z.mul_nonneg_nonneg; lia).
  assert (counts (repair bad n_per e) !! (Z.to_nat (i0 * n_per) + j0)%nat = Some 1) as Hone.
  { rewrite Hc, lookup_fill_blocks by done. rewrite decide_True; [by rewrite Hl0|].
    apply Exists_exists. exists i0. split; [done|]. lia. }
  (* no block has a zero after the repair *)
  assert (bad_experts (counts (repair bad n_per e)) (n_as e) n_per = []) as Hnil.
  { destruct (bad_experts (counts (repair bad n_per e)) (n_as e) n_per) as [|i l] eqn:E;
      [done|exfalso].
    assert (i ∈ bad_experts (counts (repair bad n_per e)) (n_as e) n_per) as Hi
      by (rewrite E; left).
    apply bad_experts_spec in Hi as [Hr Hz].
    apply elem_of_block in Hz as (j & Hj & Hl).
    assert (0 <= i * n_per) by (apply Z.mul_nonneg_nonneg; lia).
    rewrite Hc, lookup_fill_blocks in Hl by done.
    destruct (decide (in_blocks bad n_per (Z.to_nat (i * n_per) + j))) as [Hb|Hb].
    - by destruct (counts e !! (Z.to_nat (i * n_per) + j)%nat).
    - apply Hb. apply Exists_exists. exists i. split; [|lia].
      apply bad_experts_spec. split; [done|]. apply elem_of_block. eauto. }
  unfold examine. rewrite Hlen, Hs.
  destruct (Z.eqb_spec (Z.of_nat (length (counts e))) 0); [lia|].
  destruct (Z.eqb_spec (count_zeros (counts (repair bad n_per e)))
                       (Z.of_nat (length (counts e)))) as [Hall|_].
  { rewrite <- Hlen in Hall. apply count_zeros_all in Hall.
    rewrite Forall_lookup in Hall. by specialize (Hall _ _ Hone). }
  destruct (Z.ltb_spec 0 (count_zeros (counts (repair bad n_per e)))); [|done].
  destruct (Z.ltb_spec 1 (n_as e)); [|lia].
  fold n_per. rewrite Hnil. cbn [length]. change (Z.of_nat 0) with 0.
  rewrite (few_bad_zero (Z.of_nat (length bad)) (n_as e)); [done | lia | done].
Qed.

Lemma examine_after (e : Stats) :
  examine (after_examine e)
  = match examine e with
    | Stored _ => Stored (after_examine e)
    | v => v
    end.
Proof.
  unfold after_examine. destruct (examine e) as [| | |e'] eqn:Hex; try done.
  revert Hex. unfold examine.
  destruct (Z.eqb_spec (Z.of_nat (length (counts e))) 0) as [|Hne]; [done|].
  destruct (Z.eqb_spec (count_zeros (counts e)) (Z.of_nat (length (counts e)))) as [|Hna];
    [done|].
  destruct (Z.ltb_spec 0 (count_zeros (counts e))) as [Hpos|Hz].
  - destruct (Z.ltb_spec 1 (n_as e)) as [Hr|]; [|done].
    destruct (few_bad _ (n_as e)) eqn:Hfew; [|done].
    intros [= <-].
    pose proof (count_zeros_bounds (counts e)).
    apply examine_repair_stable; [done|lia|done].
  - intros [= <-].
    destruct (Z.eqb_spec (Z.of_nat (length (counts e))) 0); [done|].
    destruct (Z.eqb_spec (count_zeros (counts e)) (Z.of_nat (length (counts e)))); [done|].
    destruct (Z.ltb_spec 0 (count_zeros (counts e))); [lia|done].
Qed.

Lemma after_examine_idemp (e : Stats) : after_examine (after_examine e) = after_examine e.
Proof.
  unfold after_examine at 1. rewrite examine_after.
  destruct (examine e) eqn:Hex; try done; unfold after_examine; by rewrite Hex.
Qed.

Lemma is_stored_after (e : Stats) : is_stored (after_examine e) = is_stored e.
Proof. unfold is_stored. rewrite examine_after. by destruct (examine e). Qed.

Lemma stored_names_after (l : list (string * Stats)) :
  stored_names (prod_map id after_examine <$> l) = stored_names l.
Proof.
  unfold stored_names. induction l as [|[k e] l IH]; [done|].
  rewrite fmap_cons, !filter_cons. cbn [prod_map fst snd id].
  rewrite is_stored_after. case_decide; [|done]. rewrite !fmap_cons. cbn [fst]. by f_equal.
Qed.

(** a snapshot taken right after a snapshot finds nothing left to repair *)
Lemma save_imatrix_twice (n1 n2 : Z) (c : IMatrixCollector) :
  snd (save_imatrix n2 (snd (save_imatrix n1 c))) = snd (save_imatrix n1 c) /\
  snd (fst (save_imatrix n2 (snd (save_imatrix n1 c)))) = snd (fst (save_imatrix n1 c)).
Proof.
  rewrite !save_imatrix_spec. cbn [fst snd set_stats m_stats m_params m_last_call].
  rewrite map_to_list_fmap, stored_names_after.
  assert (after_examine <$> (after_examine <$> m_stats c) = after_examine <$> m_stats c) as ->.
  { rewrite <- map_fmap_compose. apply map_fmap_ext. intros k e _. apply after_examine_idemp. }
  done.
Qed.

(** ** save_imatrix writes to the collector *)

(** C10: [save_imatrix] is not read-only.  When it stores a routed entry
    with partial data it overwrites the counts and sums of the bad experts
    in the collector itself; the collector returned differs from the one
    given, and every later snapshot is taken from the forced values: a
    second [save_imatrix] finds nothing to repair and writes the same
    bytes. *)
Theorem C10_save_repairs_in_place
    (c : IMatrixCollector) (ncall_arg : Z) (name : string) (e : Stats) :
  m_stats c !! name = Some e ->
  1 < n_as e ->
  0 < count_zeros (counts e) < Z.of_nat (length (counts e)) ->
  let n_per := Z.quot (Z.of_nat (length (counts e))) (n_as e) in
  let bad := bad_experts (counts e) (n_as e) n_per in
  few_bad (Z.of_nat (length bad)) (n_as e) = true ->
  bad <> [] ->
  let c' := snd (save_imatrix ncall_arg c) in
  m_stats c' !! name = Some (repair bad n_per e) /\
  (exists k : nat,
      counts e !! k = Some 0 /\
      counts (repair bad n_per e) !! k = Some 1 /\
      ((k < length (values e))%nat -> values (repair bad n_per e) !! k = Some F32.bits_one)) /\
  c' <> c /\
  (forall n,
      snd (save_imatrix n c') = c' /\
      snd (fst (save_imatrix n c')) = snd (fst (save_imatrix ncall_arg c))).
Proof.
  intros Hlook Hrouted Hpartial n_per bad Hfew Hne c'.
  assert (m_stats c' !! name = Some (repair bad n_per e)) as Hlook'.
  { unfold c'. rewrite save_imatrix_spec. cbn [snd set_stats m_stats].
    rewrite lookup_fmap, Hlook. cbn. unfold after_examine.
    rewrite (examine_partial e Hpartial).
    destruct (Z.ltb_spec 1 (n_as e)); [|lia].
    cbv zeta. fold n_per. fold bad. by rewrite Hfew. }
  assert (exists k : nat,
             counts e !! k = Some 0 /\
             counts (repair bad n_per e) !! k = Some 1 /\
             ((k < length (values e))%nat ->
              values (repair bad n_per e) !! k = Some F32.bits_one)) as Hk.
  { destruct bad as [|i0 bad'] eqn:Ebad; [done|]. rewrite <- Ebad in *.
    assert (i0 ∈ bad) as Hi0 by (rewrite Ebad; left).
    pose proof Hi0 as Hi0'. apply bad_experts_spec in Hi0' as [Hr0 Hz0].
    apply elem_of_block in Hz0 as (j0 & Hj0 & Hl0).
    assert (0 <= n_per) as Hn0 by (unfold n_per; apply Z.quot_pos; lia).
    assert (0 <= i0 * n_per) as Hin0 by (apply Z.mul_nonneg_nonneg; lia).
    assert (in_blocks bad n_per (Z.to_nat (i0 * n_per) + j0)) as Hin.
    { apply Exists_exists. exists i0. split; [done|]. lia. }
    destruct (repair_fields bad n_per e) as (_ & Hv & Hc & _ & _).
    exists (Z.to_nat (i0 * n_per) + j0)%nat. split; [done|].
    rewrite Hc, Hv, !lookup_fill_blocks by (done || apply bad_experts_nonneg).
    rewrite !decide_True by done. rewrite Hl0. split; [done|].
    intros Hlt. apply lookup_lt_is_Some in Hlt as [y ->]. done. }
  split; [done|]. split; [done|]. split.
  - intros Heq. rewrite Heq, Hlook in Hlook'. injection Hlook' as Hrep.
    destruct Hk as (k & Hk0 & Hk1 & _). rewrite <- Hrep, Hk0 in Hk1. done.
  - intros n. apply save_imatrix_twice.
Qed.

Lemma C10_save_repairs_in_place_witness :
  m_stats (snd (save_imatrix (-1) routed_collector)) !! "blk.0.ffn_up_exps.weight"%string
  = Some (repair [0] 2 (routed_entry 40)).
Proof.
  apply (C10_save_repairs_in_place routed_collector (-1)
           "blk.0.ffn_up_exps.weight" (routed_entry 40)).
  - reflexivity.
  - reflexivity.
  - split; reflexivity.
  - vm_compute. reflexivity.
  - vm_compute. discriminate.
Defined.

(** ** The length check of collect_imatrix *)

Lemma set_stats_insert_id (w : World) (k : string) (e : Stats) :
  m_stats (collector w) !! k = Some e ->
  mkWorld (set_stats (<[k := e]> (m_stats (collector w))) (collector w)) (written w) = w.
Proof.
  intros H. destruct w as [[m p n] ws]. cbn in *. unfold set_stats. cbn.
  by rewrite insert_id.
Qed.

Lemma entry_ref_found (w : World) (k : string) (e : Stats) :
  m_stats (collector w) !! k = Some e -> entry_ref k w = Returns e w.
Proof.
  intros H. unfold entry_ref, bind, entry, set_entry, update_collector, modify, ret.
  rewrite H. cbn [default from_option id]. by rewrite set_stats_insert_id.
Qed.

Lemma int32_add_in_range (a b : Z) :
  Int32.min_signed <= a + b <= Int32.max_signed -> Int32.add a b = Some (a + b).
Proof.
  intros H. unfold Int32.add, Int32.in_rangeb.
  destruct (Z.leb_spec Int32.min_signed (a + b)); [|lia].
  destruct (Z.leb_spec (a + b) Int32.max_signed); [done|lia].
Qed.

(** plain path: the mismatch is detected before anything is written *)
Lemma collect_plain_mismatch (t : ggml_tensor) (w : World) (e : Stats) :
  op t <> GGML_OP_MUL_MAT_ID ->
  m_stats (collector w) !! filter_tensor_name (src0_name t) = Some e ->
  values e <> [] ->
  Z.of_nat (length (values e)) <> SizeT.wrap (src1_ne0 t) ->
  collect_imatrix t false w = Exits 1 w.
Proof.
  intros Hop Hlook Hne Hlen.
  assert (collect_plain t (filter_tensor_name (src0_name t)) w = Exits 1 w) as Hplain.
  { unfold collect_plain. unfold bind at 1. rewrite (entry_ref_found w _ e Hlook).
    unfold bind at 1. rewrite bool_decide_false by done.
    destruct (Z.eqb_spec (Z.of_nat (length (values e))) (SizeT.wrap (src1_ne0 t))); done. }
  unfold collect_imatrix. destruct (op t); try done; unfold bind; by rewrite Hplain.
Qed.

(** routed path: [++e.ncall] precedes the check, so the entry at the
    moment of [exit(1)] has its call count incremented; the vectors are
    untouched *)
Lemma collect_routed_mismatch (t : ggml_tensor) (w : World) (e : Stats) :
  op t = GGML_OP_MUL_MAT_ID ->
  ids_ne1 t = src1_ne2 t ->
  m_stats (collector w) !! filter_tensor_name (src0_name t) = Some e ->
  values e <> [] ->
  Z.of_nat (length (values e))
    <> SizeT.wrap (SizeT.wrap (src1_ne0 t) * SizeT.wrap (Int32.wrap (src0_ne2 t))) ->
  Int32.min_signed <= ncall e < Int32.max_signed ->
  collect_imatrix t false w =
  Exits 1 (mkWorld (set_stats (<[filter_tensor_name (src0_name t) := set_ncall (ncall e + 1) e]>
                                 (m_stats (collector w))) (collector w))
                   (written w)).
Proof.
  intros Hop Hids Hlook Hne Hlen Hrange.
  unfold collect_imatrix. rewrite Hop. unfold bind at 1.
  unfold collect_routed. rewrite Hids, Z.eqb_refl. cbn [negb].
  unfold bind at 1. rewrite (entry_ref_found w _ e Hlook).
  rewrite int32_add_in_range by (unfold Int32.min_signed, Int32.max_signed in *; lia).
  unfold bind at 1. unfold set_entry at 1, update_collector, modify.
  unfold bind at 1. cbn [values set_ncall].
  rewrite bool_decide_false by done.
  destruct (Z.eqb_spec (Z.of_nat (length (values e)))
              (SizeT.wrap (SizeT.wrap (src1_ne0 t) * SizeT.wrap (Int32.wrap (src0_ne2 t)))));
    done.
Qed.

(** C3 on the code: in the routed path the fatal length check comes after
    [++e.ncall].  A routed tensor first observed with 2 experts of 2
    elements and then with rows of 3 floats makes the process leave
    through [exit(1)] with the call count of the entry already raised
    from 1 to 2; the same sequence on a plain tensor leaves the state as it
    was. *)
Theorem C3_routed_mismatch_increments_call_count :
  let w1 := world_after (routed_obs 2 [0x3F800000; 0x40000000]) in
  let t2 := routed_obs 3 [0x3F800000; 0x40000000; 0x3F800000] in
  let e1 := mkStats [0x3F800000; 0x40000000; 0; 0] [0x3F800000; 0x40800000; 0; 0]
                    [1; 1; 0; 0] 1 2 in
  let p1 := world_after (plain_obs 2 [0x3F800000; 0x40000000]) in
  let p2 := plain_obs 3 [0x3F800000; 0x40000000; 0x3F800000] in
  m_stats (collector w1) !! "blk.0.ffn_up_exps.weight"%string = Some e1 /\
  collect_imatrix t2 false w1
  = Exits 1 (with_entry "blk.0.ffn_up_exps.weight" (set_ncall 2 e1) w1) /\
  collect_imatrix p2 false p1 = Exits 1 p1.
Proof.
  cbv zeta. split; [|split]; vm_compute; reflexivity.
Qed.

(** ** Read failures of load_imatrix *)

(** a failure while the name is read: the function returns [false] and the
    map keeps what was merged so far *)
Lemma load_entry_name_failure (in0 in1 in2 : istream) (len_bytes name_bytes : list byte)
    (c : IMatrixCollector) :
  read 4 in0 = (len_bytes, in1) -> failbit in1 = false ->
  read_i32 len_bytes <> Int32.max_signed -> 0 <= read_i32 len_bytes + 1 ->
  read (read_i32 len_bytes) in1 = (name_bytes, in2) -> failbit in2 = true ->
  load_entry in0 c = Returns None c.
Proof.
  intros H1 F1 Hmax Hneg H2 F2. unfold load_entry. rewrite H1, F1.
  destruct (Z.eqb_spec (read_i32 len_bytes) Int32.max_signed); [done|].
  destruct (Z.ltb_spec (read_i32 len_bytes + 1) 0); [lia|].
  rewrite H2, F2. done.
Qed.

(** a failure while the number of values is read: the map is emptied *)
Lemma load_entry_nval_failure (in0 in1 in2 in3 in4 : istream)
    (len_bytes name_bytes ncall_bytes nval_bytes : list byte) (c : IMatrixCollector) :
  read 4 in0 = (len_bytes, in1) -> failbit in1 = false ->
  read_i32 len_bytes <> Int32.max_signed -> 0 <= read_i32 len_bytes + 1 ->
  read (read_i32 len_bytes) in1 = (name_bytes, in2) -> failbit in2 = false ->
  read 4 in2 = (ncall_bytes, in3) ->
  read 4 in3 = (nval_bytes, in4) ->
  failbit in4 || (read_i32 nval_bytes <? 1) = true ->
  load_entry in0 c = Returns None (set_stats ∅ c).
Proof.
  intros H1 F1 Hmax Hneg H2 F2 H3 H4 F4. unfold load_entry. rewrite H1, F1.
  destruct (Z.eqb_spec (read_i32 len_bytes) Int32.max_signed); [done|].
  destruct (Z.ltb_spec (read_i32 len_bytes + 1) 0); [lia|].
  rewrite H2, F2. unfold bind, get, put, modify, ret. rewrite H3, H4, F4.
  destruct c as [m p lc]. done.
Qed.

(** a failure while the values are read: the map is emptied *)
Lemma load_entry_values_failure (in0 in1 in2 in3 in4 in5 : istream)
    (len_bytes name_bytes ncall_bytes nval_bytes tmp_bytes : list byte)
    (c : IMatrixCollector) :
  read 4 in0 = (len_bytes, in1) -> failbit in1 = false ->
  read_i32 len_bytes <> Int32.max_signed -> 0 <= read_i32 len_bytes + 1 ->
  read (read_i32 len_bytes) in1 = (name_bytes, in2) -> failbit in2 = false ->
  read 4 in2 = (ncall_bytes, in3) ->
  read 4 in3 = (nval_bytes, in4) ->
  failbit in4 || (read_i32 nval_bytes <? 1) = false ->
  read (read_i32 nval_bytes * 4) in4 = (tmp_bytes, in5) -> failbit in5 = true ->
  load_entry in0 c = Returns None (set_stats ∅ c).
Proof.
  intros H1 F1 Hmax Hneg H2 F2 H3 H4 F4 H5 F5. unfold load_entry. rewrite H1, F1.
  destruct (Z.eqb_spec (read_i32 len_bytes) Int32.max_signed); [done|].
  destruct (Z.ltb_spec (read_i32 len_bytes + 1) 0); [lia|].
  rewrite H2, F2. unfold bind, get, put, modify, ret. rewrite H3, H4, F4, H5, F5.
  destruct c as [m p lc]. done.
Qed.

(** C4 on the code: a read failure inside the name of an entry makes
    [load_imatrix] return [false] without emptying the map.  On a file
    whose first entry is complete and whose second entry stops inside its
    name, the collector keeps the first entry merged; the same file
    stopping inside the values of the second entry empties the map. *)
Theorem C4_truncated_name_keeps_partial_state :
  (exists c',
      load_imatrix (Some truncated_name_file) fresh_collector = Returns false c' /\
      m_stats c' = {[ "a"%string := mkStats [] [F32.bits_one] [1] 1 1 ]}) /\
  (exists c',
      load_imatrix (Some truncated_values_file) fresh_collector = Returns false c' /\
      m_stats c' = ∅).
Proof.
  split; eexists; split; vm_compute; reflexivity.
Qed.

(** ** binary32: patterns, validity, multiplication and division by one *)


















(** ** The call counts along collect_imatrix *)

Lemma bind_Returns_inv {S A B} (m : M S A) (k : A -> M S B) (s s' : S) (b : B) :
  bind m k s = Returns b s' ->
  exists a s1, m s = Returns a s1 /\ k a s1 = Returns b s'.
Proof. unfold bind. destruct (m s) as [a s1| | |]; try done. eauto. Qed.

Lemma for_each_invariant {S A} (P : S -> Prop) (l : list A) (body : A -> M S unit) :
  (forall x s s', x ∈ l -> P s -> body x s = Returns tt s' -> P s') ->
  forall s s', P s -> for_each l body s = Returns tt s' -> P s'.
Proof.
  induction l as [|x l IH]; intros Hbody s s' Hs Hrun; cbn in Hrun.
  - injection Hrun as <-. done.
  - apply bind_Returns_inv in Hrun as ([] & s1 & H1 & H2).
    eapply IH; [|eapply (Hbody x); [left|done|done]|done].
    intros y t t' Hy. apply Hbody. by right.
Qed.

Lemma accumulate_elem_ncall (k : nat) (x : Z) (e e' : Stats) :
  accumulate_elem k x e = AccOk e' -> ncall e' = ncall e.
Proof.
  unfold accumulate_elem.
  destruct (activations e !! k), (values e !! k), (counts e !! k); try done.
  destruct (Int32.add _ 1); [|done].
  destruct (F32.is_finite _); [|done]. by intros [= <-].
Qed.

Lemma accumulate_row_ncall (data : list Z) (x e_start : Z) (js : list Z) (e e' : Stats) :
  accumulate_row data x e_start js e = AccOk e' -> ncall e' = ncall e.
Proof.
  revert e. induction js as [|j js IH]; intros e; cbn.
  - by intros [= <-].
  - destruct (_ || _); [done|]. destruct (data !! _); [|done].
    destruct (accumulate_elem _ _ e) as [e1| |] eqn:E; try done.
    intros H. rewrite (IH _ H). by eapply accumulate_elem_ncall.
Qed.

Lemma ncalls_set_entry (w : World) (k : string) (e : Stats) :
  ncalls (mkWorld (set_stats (<[k := e]> (m_stats (collector w))) (collector w)) (written w))
  = <[k := ncall e]> (ncalls w).
Proof. unfold ncalls. cbn. by rewrite fmap_insert. Qed.

Lemma observe_row_calls (k : string) (data : list Z) (x e_start ne0 n0 : Z) (w w' : World) :
  ncalls w !! k = Some n0 ->
  observe_row k data x e_start ne0 w = Returns tt w' ->
  ncalls w' = ncalls w /\ last_call w' = last_call w.
Proof.
  intros Hk. unfold observe_row, bind, entry.
  assert (exists e, m_stats (collector w) !! k = Some e /\ ncall e = n0) as (e & He & Hn).
  { unfold ncalls in Hk. rewrite lookup_fmap in Hk.
    destruct (m_stats (collector w) !! k) as [e|]; [|done]. exists e. by injection Hk. }
  rewrite He. cbn [default from_option id].
  destruct (accumulate_row data x e_start (seqZ 0 ne0) e) as [e'| |] eqn:E; try done.
  unfold set_entry, update_collector, modify. intros [= <-].
  rewrite ncalls_set_entry, (accumulate_row_ncall _ _ _ _ _ _ E), Hn.
  split; [by apply insert_id|done].
Qed.

Lemma repair_ncall (bad : list Z) (n : Z) (e : Stats) : ncall (repair bad n e) = ncall e.
Proof. by destruct (repair_fields bad n e) as (_ & _ & _ & -> & _). Qed.

Lemma examine_Stored_inv (e e' : Stats) :
  examine e = Stored e' -> e' = e \/ exists bad n, e' = repair bad n e.
Proof.
  unfold examine. intros H. repeat case_match; simplify_eq; eauto.
Qed.

Lemma after_examine_ncall (e : Stats) : ncall (after_examine e) = ncall e.
Proof.
  unfold after_examine. destruct (examine e) as [| | |e'] eqn:Hex; try done.
  apply examine_Stored_inv in Hex as [->|(bad & n & ->)]; [done|apply repair_ncall].
Qed.

Lemma call_save_calls (n : Z) (w w' : World) (r : unit) :
  call_save n w = Returns r w' ->
  ncalls w' = ncalls w /\ last_call w' = last_call w.
Proof.
  unfold call_save. rewrite save_imatrix_spec. intros H. injection H as _ <-.
  unfold ncalls, last_call, set_stats. cbn [collector m_stats m_last_call]. split; [|done].
  rewrite <- map_fmap_compose. apply map_fmap_ext. intros k e _. apply after_examine_ncall.
Qed.

Lemma checkpoint_calls (k : string) (n0 : Z) (w w' : World) :
  ncalls w !! k = Some n0 ->
  checkpoint k w = Returns tt w' ->
  ncalls w' = ncalls w /\ last_call w' = Z.max (last_call w) n0.
Proof.
  intros Hk. unfold checkpoint.
  assert (exists e, m_stats (collector w) !! k = Some e /\ ncall e = n0) as (e & He & Hn).
  { unfold ncalls in Hk. rewrite lookup_fmap in Hk.
    destruct (m_stats (collector w) !! k) as [e|]; [|done]. exists e. by injection Hk. }
  unfold bind at 1, entry. rewrite He. cbn [default from_option id].
  unfold bind at 1, the_collector. rewrite Hn.
  destruct (Z.ltb_spec (m_last_call (collector w)) n0) as [Hlt|Hge].
  - intros H. apply bind_Returns_inv in H as ([] & w1 & H1 & H).
    unfold update_collector, modify in H1. injection H1 as <-.
    apply bind_Returns_inv in H as ([] & w2 & H2 & H3).
    assert (ncalls w2 = ncalls w /\ last_call w2 = n0) as [HN2 HL2].
    { destruct (_ =? 0); [done|]. destruct (_ =? 0).
      - apply call_save_calls in H2 as [-> ->]. done.
      - unfold ret in H2. by injection H2 as <-. }
    assert (ncalls w' = ncalls w2 /\ last_call w' = last_call w2) as [-> ->].
    { destruct (_ && _).
      - by apply call_save_calls in H3.
      - unfold ret in H3. by injection H3 as <-. }
    split; [done|]. rewrite HL2. unfold last_call. lia.
  - unfold ret. intros [= <-]. split; [done|]. unfold last_call. lia.
Qed.

Lemma set_entry_eq (k : string) (e : Stats) (w : World) :
  set_entry k e w = Returns tt (with_entry k e w).
Proof. reflexivity. Qed.

Lemma entry_eq (k : string) (w : World) : entry k w = Returns (entry_of k w) w.
Proof. reflexivity. Qed.

Lemma entry_ref_eq (k : string) (w : World) :
  entry_ref k w = Returns (entry_of k w) (with_entry k (entry_of k w) w).
Proof. reflexivity. Qed.

Lemma ncalls_with_entry (k : string) (e : Stats) (w : World) :
  ncalls (with_entry k e w) = <[k := ncall e]> (ncalls w).
Proof. unfold ncalls, with_entry. cbn. by rewrite fmap_insert. Qed.

Lemma last_call_with_entry (k : string) (e : Stats) (w : World) :
  last_call (with_entry k e w) = last_call w.
Proof. reflexivity. Qed.

Lemma entry_of_with_entry (k : string) (e : Stats) (w : World) :
  entry_of k (with_entry k e w) = e.
Proof. unfold entry_of, with_entry. cbn. by rewrite lookup_insert_eq. Qed.

(** the loop over the rows of one expert keeps call counts and
    [m_last_call] *)
Lemma rows_calls (k : string) (Nf : gmap string Z) (L : Z) (n0 : Z) {A} (l : list A)
    (body : A -> M World unit) (w w' : World) :
  Nf !! k = Some n0 ->
  (forall x s s', ncalls s = Nf -> body x s = Returns tt s' ->
                  ncalls s' = ncalls s /\ last_call s' = last_call s) ->
  ncalls w = Nf /\ last_call w = L ->
  for_each l body w = Returns tt w' ->
  ncalls w' = Nf /\ last_call w' = L.
Proof.
  intros Hk Hbody Hw.
  apply (for_each_invariant (fun s => ncalls s = Nf /\ last_call s = L)); [|done].
  intros x s s' _ [HN HL] Hrun. destruct (Hbody x s s' HN Hrun) as [-> ->]. done.
Qed.

(** what a returning call of the plain branch does to the call counts *)
Lemma collect_plain_calls (t : ggml_tensor) (k : string) (w w' : World) :
  collect_plain t k w = Returns tt w' ->
  ncalls w' = <[k := ncall (entry_of k w) + 1]> (ncalls w) /\
  last_call w' = Z.max (last_call w) (ncall (entry_of k w) + 1).
Proof.
  unfold collect_plain. unfold bind at 1. rewrite entry_ref_eq.
  set (e0 := entry_of k w). set (w0 := with_entry k e0 w).
  intros H. apply bind_Returns_inv in H as ([] & w1 & H1 & H).
  assert (ncalls w1 = <[k := ncall e0]> (ncalls w) /\ last_call w1 = last_call w /\
          ncall (entry_of k w1) = ncall e0) as (HN1 & HL1 & He1).
  { destruct (bool_decide (values e0 = [])).
    - destruct (src1_ne0 t <? 0); [done|]. rewrite set_entry_eq in H1. injection H1 as <-.
      rewrite ncalls_with_entry, entry_of_with_entry. unfold w0.
      rewrite ncalls_with_entry, insert_insert_eq. done.
    - destruct (negb _); [done|]. unfold ret in H1. injection H1 as <-.
      unfold w0. by rewrite ncalls_with_entry, entry_of_with_entry. }
  unfold bind at 1 in H. rewrite entry_eq in H.
  destruct (Int32.add (ncall (entry_of k w1)) 1) as [n1|] eqn:Hadd; [|done].
  assert (n1 = ncall e0 + 1) as ->.
  { unfold Int32.add in Hadd. destruct (Int32.in_rangeb _); [|done].
    injection Hadd as <-. by rewrite He1. }
  apply bind_Returns_inv in H as ([] & w2 & H2 & H).
  rewrite set_entry_eq in H2. injection H2 as <-.
  apply bind_Returns_inv in H as ([] & w3 & H3 & H4).
  set (Nf := <[k := ncall e0 + 1]> (ncalls w)).
  assert (ncalls (with_entry k (set_ncall (ncall e0 + 1) (entry_of k w1)) w1) = Nf) as HN2.
  { rewrite ncalls_with_entry, HN1. unfold Nf. cbn [ncall set_ncall].
    by rewrite insert_insert_eq. }
  assert (Nf !! k = Some (ncall e0 + 1)) as HNk by (unfold Nf; apply lookup_insert_eq).
  assert (ncalls w3 = Nf /\ last_call w3 = last_call w) as [HN3 HL3].
  { eapply (rows_calls k Nf (last_call w) _ _ _ _ _ HNk); [| |exact H3].
    - intros row s s' Hs Hrow. eapply observe_row_calls; [|exact Hrow]. by rewrite Hs.
    - split; [done|]. by rewrite last_call_with_entry. }
  destruct (checkpoint_calls k (ncall e0 + 1) w3 w') as [HN4 HL4]; [by rewrite HN3|done|].
  rewrite HN4, HL4, HN3, HL3. done.
Qed.

(** what a returning call of the routed branch does to the call counts *)
Lemma collect_routed_calls (t : ggml_tensor) (k : string) (w w' : World) :
  1 <= Int32.wrap (src0_ne2 t) ->
  collect_routed t k w = Returns tt w' ->
  ncalls w' = <[k := ncall (entry_of k w) + 1]> (ncalls w) /\
  last_call w' = Z.max (last_call w) (ncall (entry_of k w) + 1).
Proof.
  intros Hnas. unfold collect_routed.
  destruct (negb (ids_ne1 t =? src1_ne2 t)); [done|].
  unfold bind at 1. rewrite entry_ref_eq.
  set (e0 := entry_of k w). set (w0 := with_entry k e0 w).
  destruct (Int32.add (ncall e0) 1) as [n1|] eqn:Hadd; [|done].
  assert (n1 = ncall e0 + 1) as ->.
  { unfold Int32.add in Hadd. destruct (Int32.in_rangeb _); [|done]. by injection Hadd as <-. }
  intros H. apply bind_Returns_inv in H as ([] & w1 & H1 & H).
  rewrite set_entry_eq in H1. injection H1 as <-.
  apply bind_Returns_inv in H as ([] & w2 & H2 & H).
  set (Nf := <[k := ncall e0 + 1]> (ncalls w)).
  assert (Nf !! k = Some (ncall e0 + 1)) as HNk by (unfold Nf; apply lookup_insert_eq).
  assert (ncalls w2 = Nf /\ last_call w2 = last_call w) as [HN2 HL2].
  { assert (ncalls (with_entry k (set_ncall (ncall e0 + 1) e0) w0) = Nf) as HN1.
    { unfold w0. rewrite !ncalls_with_entry. cbn [ncall set_ncall].
      by rewrite insert_insert_eq. }
    destruct (bool_decide (values (set_ncall (ncall e0 + 1) e0) = [])).
    - destruct (_ <? 0); [done|]. rewrite set_entry_eq in H2. injection H2 as <-.
      rewrite ncalls_with_entry, HN1. cbn [ncall sized set_ncall].
      split; [|done]. apply insert_id. done.
    - destruct (negb _); [done|]. unfold ret in H2. by injection H2 as <-. }
  (* one pass of the loop over the experts *)
  assert (forall ex s s',
             ncalls s = Nf ->
             (for_each (seqZ 0 (Int32.wrap (ids_ne0 t))) (fun idx =>
                for_each (seqZ 0 (Int32.wrap (src1_ne2 t))) (fun row =>
                  match read_id t row idx with
                  | None => undefined
                  | Some excur =>
                      if negb ((0 <=? excur) && (excur <? Int32.wrap (src0_ne2 t))) then abort
                      else if negb (excur =? ex) then ret tt
                      else if src1_ne1 t =? 0 then undefined
                      else
                        let i11 := Z.rem idx (src1_ne1 t) in
                        let i12 := row in
                        let off := i11 * src1_nb1 t + i12 * src1_nb2 t in
                        if negb (Z.rem off 4 =? 0) then undefined
                        else observe_row k (src1_data t) (Z.quot off 4)
                                         (SizeT.wrap (ex * src1_ne0 t))
                                         (Int32.wrap (src1_ne0 t))
                  end)) ;;
              checkpoint k) s = Returns tt s' ->
             ncalls s' = Nf /\ last_call s' = Z.max (last_call s) (ncall e0 + 1)) as Hpass.
  { intros ex s s' Hs Hrun.
    apply bind_Returns_inv in Hrun as ([] & s1 & Hin & Hcp).
    assert (ncalls s1 = Nf /\ last_call s1 = last_call s) as [HNs HLs].
    { eapply (rows_calls k Nf (last_call s) _ _ _ _ _ HNk); [|split; done|exact Hin].
      intros idx u u' Hu Hidx. rewrite <- Hu in HNk.
      assert (ncalls u' = ncalls u /\ last_call u' = last_call u); [|done].
      eapply (rows_calls k (ncalls u) (last_call u) _ _ _ _ _ HNk); [|split; done|exact Hidx].
      intros row v v' Hv Hrow.
      unfold undefined, abort, ret in Hrow.
      destruct (read_id t row idx) as [excur|]; [|done].
      destruct (negb (_ && _)); [done|].
      destruct (negb (excur =? ex)); [by injection Hrow as <-|].
      destruct (src1_ne1 t =? 0); [done|]. cbv zeta in Hrow.
      destruct (negb (_ =? 0)); [done|].
      eapply observe_row_calls; [|exact Hrow]. rewrite Hv. exact HNk. }
    destruct (checkpoint_calls k (ncall e0 + 1) s1 s') as [HN' HL'];
      [by rewrite HNs|done|].
    rewrite HN', HL', HNs, HLs. done. }
  rewrite seqZ_cons in H by lia. cbn [for_each] in H.
  apply bind_Returns_inv in H as ([] & w3 & H3 & H4).
  destruct (Hpass 0 w2 w3 HN2 H3) as [HN3 HL3].
  rewrite HL2 in HL3.
  eapply (for_each_invariant
            (fun s => ncalls s = Nf /\ last_call s = Z.max (last_call w) (ncall e0 + 1)));
    [|split; [exact HN3|exact HL3]|exact H4].
  intros ex s s' _ [HNs HLs] Hrun.
  destruct (Hpass ex s s' HNs Hrun) as [HN' HL']. split; [done|]. lia.
Qed.

(** every returning call of [collect_imatrix] with [ask] false raises the
    call count of the observed entry by one, keeps the others, and leaves
    [m_last_call] at the maximum of its old value and the new call count *)
Lemma collect_imatrix_calls (t : ggml_tensor) (w w' : World) (b : bool) :
  (op t = GGML_OP_MUL_MAT_ID -> 1 <= Int32.wrap (src0_ne2 t)) ->
  collect_imatrix t false w = Returns b w' ->
  let k := filter_tensor_name (src0_name t) in
  ncalls w' = <[k := ncall (entry_of k w) + 1]> (ncalls w) /\
  last_call w' = Z.max (last_call w) (ncall (entry_of k w) + 1).
Proof.
  intros Hnas H k. unfold collect_imatrix in H. fold k in H.
  apply bind_Returns_inv in H as ([] & w1 & H1 & H2).
  unfold ret in H2. injection H2 as _ <-.
  destruct (op t) eqn:Hop.
  - by apply collect_plain_calls in H1.
  - apply collect_routed_calls in H1; [done|]. by apply Hnas.
  - by apply collect_plain_calls in H1.
Qed.

Lemma collect_imatrix_ask (t : ggml_tensor) (w : World) :
  exists b, collect_imatrix t true w = Returns b w.
Proof. unfold collect_imatrix, bind, the_collector, ret. eauto. Qed.

(** ** m_last_call over the observed states *)

Lemma entry_of_ncall (k : string) (w : World) :
  ncall (entry_of k w) = default 0 (ncalls w !! k).
Proof.
  unfold entry_of, ncalls. rewrite lookup_fmap.
  by destruct (m_stats (collector w) !! k).
Qed.

Lemma observed_calls (w : World) :
  observed w ->
  (forall k n, ncalls w !! k = Some n -> 1 <= n <= last_call w) /\
  (ncalls w = ∅ -> last_call w = 0) /\
  (ncalls w <> ∅ -> exists k, ncalls w !! k = Some (last_call w)).
Proof.
  induction 1 as [p|w t ask b w' Hobs IH Hnas Hrun].
  - unfold ncalls, last_call. cbn. rewrite fmap_empty.
    split; [intros k n; by rewrite lookup_empty|]. split; done.
  - destruct ask.
    { destruct (collect_imatrix_ask t w) as (b' & Hask). rewrite Hask in Hrun.
      by injection Hrun as _ <-. }
    destruct IH as (Hle & Hempty & Hmax).
    destruct (collect_imatrix_calls t w w' b Hnas Hrun) as [HN HL].
    set (k := filter_tensor_name (src0_name t)) in *.
    rewrite entry_of_ncall in HN, HL.
    assert (0 <= default 0 (ncalls w !! k) <= last_call w) as Hn0.
    { destruct (ncalls w !! k) as [n|] eqn:E; cbn.
      - specialize (Hle k n E). lia.
      - destruct (decide (ncalls w = ∅)) as [He|Hne]; [rewrite Hempty by done; lia|].
        destruct (Hmax Hne) as (k0 & Hk0). specialize (Hle _ _ Hk0). lia. }
    rewrite HN, HL. split; [|split].
    + intros k' n. destruct (decide (k' = k)) as [->|Hne].
      * rewrite lookup_insert_eq. intros [= <-]. lia.
      * rewrite lookup_insert_ne by done. intros Hk'. specialize (Hle _ _ Hk'). lia.
    + intros He. by apply insert_non_empty in He.
    + intros _. destruct (Z.max_spec (last_call w) (default 0 (ncalls w !! k) + 1))
        as [[Hlt ->]|[Hge ->]].
      * exists k. by rewrite lookup_insert_eq.
      * destruct (decide (ncalls w = ∅)) as [He|Hne].
        { rewrite He, lookup_empty in Hge. cbn in Hge. rewrite Hempty in Hge by done. lia. }
        destruct (Hmax Hne) as (k0 & Hk0). exists k0.
        rewrite lookup_insert_ne; [done|]. intros <-. rewrite Hk0 in Hge. cbn in Hge. lia.
Qed.

(** C7, as amended: the [int] written after the entries is
    [m_last_call]; in every state reached from an empty collector by
    observations it is the largest call count among all the entries of the
    collector, stored in the snapshot or not, and 0 when there is none. *)
Theorem C7_last_call_count_field (w : World) (ncall_arg : Z) :
  observed w ->
  let c := collector w in
  let c' := snd (save_imatrix ncall_arg c) in
  let kept := stored_names (map_to_list (m_stats c)) in
  snd (fst (save_imatrix ncall_arg c))
  = write_i32 (Z.of_nat (length kept)) ++ encode_entries (m_stats c') kept ++
    write_i32 (m_last_call c) ++
    write_i32 (Z.of_nat (String.length (prompt_file (m_params c)))) ++
    bytes_of_string (prompt_file (m_params c)) /\
  (forall k e, m_stats c !! k = Some e -> ncall e <= m_last_call c) /\
  (m_stats c <> ∅ -> exists k e, m_stats c !! k = Some e /\ ncall e = m_last_call c) /\
  (m_stats c = ∅ -> m_last_call c = 0).
Proof.
  intros Hobs c c' kept. destruct (observed_calls w Hobs) as (Hle & Hempty & Hmax).
  split; [|split; [|split]].
  - unfold c', kept. by rewrite save_imatrix_spec.
  - intros k e Hk. apply (Hle k). unfold ncalls. fold c. by rewrite lookup_fmap, Hk.
  - intros Hne. destruct Hmax as (k & Hk).
    { unfold ncalls. fold c. intros He. by apply fmap_empty_inv in He. }
    unfold ncalls in Hk. fold c in Hk. rewrite lookup_fmap in Hk.
    destruct (m_stats c !! k) as [e|] eqn:E; [|done]. exists k, e. split; [done|].
    by injection Hk.
  - intros He. apply Hempty. unfold ncalls. fold c. by rewrite He, fmap_empty.
Qed.

Lemma observe_all_observed (ts : list ggml_tensor) (w : World) :
  observed w ->
  Forall (fun t => op t = GGML_OP_MUL_MAT_ID -> 1 <= Int32.wrap (src0_ne2 t)) ts ->
  observed (observe_all ts w).
Proof.
  intros Hw Hts. revert w Hw. induction Hts as [|t ts Ht Hts IH]; intros w Hw; cbn [observe_all].
  - done.
  - destruct (collect_imatrix t false w) as [b w'| | |] eqn:E; try done.
    apply IH. by eapply observed_step.
Defined.

Lemma mixed_world_observed : observed mixed_world.
Proof.
  apply observe_all_observed; [apply observed_fresh|].
  repeat constructor; try discriminate; intros _; vm_compute; discriminate.
Defined.

Lemma C7_last_call_count_field_witness :
  exists k e,
    m_stats (collector mixed_world) !! k = Some e /\
    ncall e = m_last_call (collector mixed_world).
Proof.
  destruct (C7_last_call_count_field mixed_world (-1) mixed_world_observed)
    as (_ & _ & H & _).
  apply H. intros E.
  assert (m_stats (collector mixed_world) !! "blk.0.attn_k.weight"%string = None) as Hnone
    by (rewrite E; apply lookup_empty).
  vm_compute in Hnone. discriminate.
Defined.

(** C7 as stated fails: after a plain tensor has been observed twice and a
    routed tensor three times with one of its two experts never selected,
    the snapshot stores the plain entry only, whose call count is 2, and
    the field written after it is 3. *)
Lemma C7_counterexample :
  let c := collector mixed_world in
  let file := snd (fst (save_imatrix (-1) c)) in
  stored_names (map_to_list (m_stats c)) = ["blk.0.attn_k.weight"%string] /\
  (ncall <$> m_stats c !! "blk.0.attn_k.weight"%string) = Some 2 /\
  file = write_i32 1 ++
         encode_entry "blk.0.attn_k.weight"
           (mkStats [0x3F800000; 0x40000000] [0x40000000; 0x41000000] [2; 2] 2 1) ++
         write_i32 3 ++ write_i32 8 ++ bytes_of_string "wiki.txt".
Proof. cbv zeta. repeat split; vm_compute; reflexivity. Qed.

(** ** The serialized values *)





(** ** One observation of one row *)











(** ** Layer-importance scores *)



(** ** The families are sorted by layer *)

#[local] Instance layer_le_total : Total layer_le.
Proof. intros a b. unfold layer_le. lia. Qed.

#[local] Instance layer_le_trans : Transitive layer_le.
Proof. intros a b c. unfold layer_le. lia. Qed.






Example compute_lim_identical :
  compute_lim (two_layers [F32.bits_one; 0] [F32.bits_one; 0])
  = Some [LimTensor "attn_k"; LimScore 0 (F32.opp F32.one)].
Proof. vm_compute. reflexivity. Qed.

Example compute_lim_orthogonal :
  compute_lim (two_layers [F32.bits_one; 0] [0; F32.bits_one])
  = Some [LimTensor "attn_k"; LimScore 0 (S754_zero true)].
Proof. vm_compute. reflexivity. Qed.

Example compute_lim_dimension_mismatch :
  compute_lim (two_layers [F32.bits_one; 0] [F32.bits_one])
  = Some [LimTensor "attn_k"; LimSkipDimension 0 2 1].
Proof. vm_compute. reflexivity. Qed.

(** ** The log-softmax kernel *)






Section LogSoftmaxProperties.

Variable expf : spec_float -> spec_float.
Variable log : spec_float -> spec_float.



End LogSoftmaxProperties.


(** ** Encoding, decoding and encoding again *)

(** C1 on the code: [load_imatrix] rebuilds the entries but never assigns
    [m_last_call].  The collector that has observed one row stores its
    only entry unchanged and writes the call count 1 after it; decoding
    that snapshot into an empty collector succeeds, and encoding the result
    reproduces the entries and the source description byte for byte but
    writes 0 where the first snapshot has 1. *)
Theorem C1_roundtrip_loses_last_call_count :
  let out1 := snd (fst (save_imatrix (-1) observed_once)) in
  let c2 :=
    mkCollector
      {[ "blk.0.attn_k.weight"%string := mkStats [] [0x3F800000; 0x40800000] [1; 1] 1 1 ]}
      example_params 0 in
  let out2 := snd (fst (save_imatrix (-1) c2)) in
  select_entries (m_stats observed_once)
  = (["blk.0.attn_k.weight"%string], m_stats observed_once) /\
  m_last_call observed_once = 1 /\
  load_imatrix (Some out1) fresh_collector = Returns true c2 /\
  out1 = observed_once_entries ++ write_i32 1 ++ write_i32 8 ++ bytes_of_string "wiki.txt" /\
  out2 = observed_once_entries ++ write_i32 0 ++ write_i32 8 ++ bytes_of_string "wiki.txt" /\
  out1 <> out2.
Proof.
  cbv zeta. repeat split; try (vm_compute; reflexivity).
  vm_compute. discriminate.
Qed.
